(** * gitlab-scraper: the [scrape] command of [cmd/scrape.go]

    A shallow embedding of the scrape pipeline: the configuration
    structures, the label merger over a store of Go maps, the two
    collectors, the loop over the configured groups and the final push.
    The GitLab client, viper and the Push Gateway are collaborators of the
    program; they enter the model as the fields of [Env] and [Client]. *)

From stdpp Require Import base option list gmap strings pretty.
From Stdlib Require Import ZArith.

Local Open Scope string_scope.
Local Open Scope Z_scope.
Local Open Scope list_scope.

(** ** Data model *)

(** [prometheus.Labels], a [map[string]string], by value. *)
Abbreviation Labels := (gmap string string).

(** A Go map is a reference: [None] is the nil map, [Some l] the map object
    stored at address [l]. *)
Definition mapref := option nat.

Record ProjectCountConfig := mkProjectCountConfig {
  IncludeSubGroups : option bool
}.

Inductive MemberCountConfig := mkMemberCountConfig.

Record GroupConfig := mkGroupConfig {
  ID : string;
  ProjectCount : option ProjectCountConfig;
  MemberCount : option MemberCountConfig
}.

Record Config := mkConfig {
  DefaultLabels : mapref;
  Groups : list GroupConfig
}.

(** The fields of the client library's option and response structures that
    the program sets or reads. *)
Record ListOptions := mkListOptions {
  Page : Z;
  PerPage : Z
}.

Record ListGroupProjectsOptions := mkListGroupProjectsOptions {
  lgp_IncludeSubGroups : option bool;
  lgp_ListOptions : ListOptions;
  lgp_Simple : option bool
}.

Record ListGroupMembersOptions := mkListGroupMembersOptions {
  lgm_ListOptions : ListOptions
}.

Record Response := mkResponse {
  TotalItems : Z
}.

Record Project := mkProject { project_ID : Z }.
Record GroupMember := mkGroupMember { member_ID : Z }.

(** What a list call of the client returns: [(items, resp, nil)] with
    [resp] non-nil, or a non-nil error (rendered as its message). *)
Inductive ApiResult (A : Type) :=
| ApiOk (items : list A) (resp : Response)
| ApiErr (err : string).
Arguments ApiOk {A} items resp.
Arguments ApiErr {A} err.

Definition api_ok {A} (r : ApiResult A) : bool :=
  match r with ApiOk _ _ => true | ApiErr _ => false end.

(** A gauge as the pusher holds it: [GaugeOpts] with the constant labels
    copied at creation, and the current value. The value is a float64 that
    always holds an integer here; it is kept as that integer. *)
Record Gauge := mkGauge {
  Name : string;
  Help : string;
  ConstLabels : Labels;
  Value : Z
}.

Record Pusher := mkPusher {
  pusher_url : string;
  pusher_job : string;
  pusher_collectors : list Gauge
}.

(** Calls that leave the process, in the order they are made, each with
    what came back. *)
Inductive Call :=
| CallListGroupProjects (gid : string) (opt : ListGroupProjectsOptions)
    (res : ApiResult Project)
| CallListGroupMembers (gid : string) (opt : ListGroupMembersOptions)
    (res : ApiResult GroupMember)
| CallPush (url job : string) (batch : list Gauge) (err : option string).

(** The client handle. A call may answer differently as the run proceeds,
    so each method also sees the calls made so far. *)
Record Client := mkClient {
  Groups_ListGroupProjects :
    list Call → string → ListGroupProjectsOptions → ApiResult Project;
  Groups_ListGroupMembers :
    list Call → string → ListGroupMembersOptions → ApiResult GroupMember
}.

(** ** The world and the monad of the program *)

Record World := mkWorld {
  heap : list Labels;
  stdout : list string;
  calls : list Call
}.

Inductive Result (A : Type) :=
| Done (a : A)
| Exited (code : Z)
| Panicked.
Arguments Done {A} a.
Arguments Exited {A} code.
Arguments Panicked {A}.

Definition M (A : Type) : Type := World → Result A * World.

Definition ret {A} (a : A) : M A := λ w, (Done a, w).

Definition bind {A B} (k : A → M B) (m : M A) : M B := λ w,
  match m w with
  | (Done a, w') => k a w'
  | (Exited c, w') => (Exited c, w')
  | (Panicked, w') => (Panicked, w')
  end.

#[global] Instance M_ret : MRet M := @ret.
#[global] Instance M_bind : MBind M := @bind.

Definition os_Exit {A} (code : Z) : M A := λ w, (Exited code, w).
Definition panic {A} : M A := λ w, (Panicked, w).

Definition nl : string := String (Ascii.ascii_of_nat 10) EmptyString.

(** [fmt.Println(s)] and [fmt.Printf] once the arguments are formatted. *)
Definition fmt_Print (s : string) : M unit := λ w,
  (Done tt, mkWorld (heap w) (stdout w ++ [s]) (calls w)).

Definition fmt_Println (s : string) : M unit := fmt_Print (s +:+ nl).

(** ** Go maps in the store *)

(** Reading through a reference; ranging over the nil map sees nothing. *)
Definition read_map (h : list Labels) (r : mapref) : Labels :=
  match r with
  | None => ∅
  | Some l => default ∅ (h !! l)
  end.

Definition valid_ref (h : list Labels) (r : mapref) : Prop :=
  match r with
  | None => True
  | Some l => (l < length h)%nat
  end.

(** A map literal: a new object at the next free address. *)
Definition new_map (m : Labels) : M mapref := λ w,
  (Done (Some (length (heap w))), mkWorld (heap w ++ [m]) (stdout w) (calls w)).

(** [for k, v := range src { dst[k] = v }] on the contents. *)
Definition copy_entries (dst src : Labels) : Labels :=
  map_fold (λ k v acc, <[k:=v]> acc) dst src.

(** [maps.Copy(dst, src)]: an assignment into the nil map panics. *)
Definition maps_Copy (dst src : mapref) : M unit := λ w,
  let s := read_map (heap w) src in
  match dst with
  | None => if decide (s = ∅) then (Done tt, w) else (Panicked, w)
  | Some l =>
      (Done tt,
       mkWorld (alter (λ d, copy_entries d s) l (heap w)) (stdout w) (calls w))
  end.

(** [for _, x := range xs { body x }] *)
Fixpoint for_range {A} (xs : list A) (body : A → M unit) : M unit :=
  match xs with
  | [] => ret tt
  | x :: xs' => body x ;; for_range xs' body
  end.

(** [mergeLabels(labelSets ...prometheus.Labels)] *)
Definition mergeLabels (labelSets : list mapref) : M mapref :=
  merged ← new_map ∅;
  for_range labelSets (λ labels, maps_Copy merged labels);;
  ret merged.

(** ** Collaborators of the command *)

(** What [viper.Unmarshal(&config, ...)] decodes: the two fields of
    [Config], the label map by contents ([None] when the file has no
    [default_labels]), or an error. *)
Inductive Decoded :=
| DecodedConfig (default_labels : option Labels) (groups : list GroupConfig)
| DecodeError (err : string).

Record Env := mkEnv {
  (** [viper.ReadInConfig()] after [viper.SetConfigFile(configFile)] *)
  viper_ReadInConfig : string → option string;
  (** [viper.GetString(key)] after [viper.BindEnv(key, envVar)] *)
  viper_GetString : string → string → string;
  viper_decode : Decoded;
  gitlab_NewClient : string → Client + string;
  (** the HTTP request of [pusher.Push()], or the error the pusher holds *)
  gateway_push : list Call → string → string → list Gauge → option string
}.

(** [viper.Unmarshal(&config, ...)]: the decoded label map becomes a map
    object of its own. *)
Definition viper_Unmarshal (env : Env) : M (Config + string) :=
  match viper_decode env with
  | DecodeError err => mret (inr err)
  | DecodedConfig None gs => mret (inl (mkConfig None gs))
  | DecodedConfig (Some m) gs => r ← new_map m; mret (inl (mkConfig r gs))
  end.

(** The two list methods as the program calls them: the answer of the
    client, with the call recorded. *)
Definition ListGroupProjects (git : Client) (gid : string)
    (opt : ListGroupProjectsOptions) : M (ApiResult Project) := λ w,
  let res := Groups_ListGroupProjects git (calls w) gid opt in
  (Done res,
   mkWorld (heap w) (stdout w) (calls w ++ [CallListGroupProjects gid opt res])).

Definition ListGroupMembers (git : Client) (gid : string)
    (opt : ListGroupMembersOptions) : M (ApiResult GroupMember) := λ w,
  let res := Groups_ListGroupMembers git (calls w) gid opt in
  (Done res,
   mkWorld (heap w) (stdout w) (calls w ++ [CallListGroupMembers gid opt res])).

(** [float64(n)] of an [int]: the nearest value with 53 significant bits,
    ties to even, as the integer it denotes. *)
Definition float64_of_int (n : Z) : Z :=
  let a := Z.abs n in
  let e := Z.log2 a - 52 in
  if (e <=? 0)%Z then n
  else
    let q := Z.shiftr a e in
    let r := Z.land a (Z.ones e) in
    let half := Z.shiftl 1 (e - 1) in
    let q' :=
      if (half <? r)%Z || ((r =? half)%Z && Z.odd q) then q + 1 else q in
    Z.sgn n * Z.shiftl q' e.

(** [prometheus.NewGauge(prometheus.GaugeOpts{Name, Help, ConstLabels})]:
    the descriptor takes its own copy of the label pairs; the value starts
    at zero. *)
Definition prometheus_NewGauge (name help : string) (constLabels : mapref)
    : M Gauge := λ w,
  (Done (mkGauge name help (read_map (heap w) constLabels) 0), w).

Definition Gauge_Set (g : Gauge) (v : Z) : Gauge :=
  mkGauge (Name g) (Help g) (ConstLabels g) v.

Definition push_New (url job : string) : Pusher := mkPusher url job [].

Definition Pusher_Collector (p : Pusher) (c : Gauge) : Pusher :=
  mkPusher (pusher_url p) (pusher_job p) (pusher_collectors p ++ [c]).

Definition Pusher_Push (env : Env) (p : Pusher) : M (option string) := λ w,
  let err :=
    gateway_push env (calls w) (pusher_url p) (pusher_job p)
      (pusher_collectors p) in
  (Done err,
   mkWorld (heap w) (stdout w)
     (calls w ++
      [CallPush (pusher_url p) (pusher_job p) (pusher_collectors p) err])).

(** ** The program *)

Definition getRequiredValue (env : Env) (key envVar errMsg : string)
    : M string :=
  let value := viper_GetString env key envVar in
  (if decide (value = EmptyString)
   then fmt_Println errMsg;; os_Exit 1
   else mret tt);;
  mret value.

(** [group.ProjectCount.IncludeSubGroups] reads through the pointer
    [group.ProjectCount]: on nil the read panics. *)
Definition getProjectCount (git : Client) (group : GroupConfig) : M Z :=
  let includeSubGroups := false in
  match ProjectCount group with
  | None => panic
  | Some projectCount =>
      let includeSubGroups :=
        match IncludeSubGroups projectCount with
        | Some b => b
        | None => includeSubGroups
        end in
      res ← ListGroupProjects git (ID group)
        {| lgp_IncludeSubGroups := Some includeSubGroups;
           lgp_ListOptions := {| Page := 1; PerPage := 1 |};
           lgp_Simple := Some true |};
      match res with
      | ApiErr err =>
          fmt_Print ("Failed to list projects for group " +:+ ID group +:+
                     ": " +:+ err +:+ nl);;
          os_Exit 1
      | ApiOk _ resp => mret (TotalItems resp)
      end
  end.

Definition getGroupMembersCount (git : Client) (group : GroupConfig) : M Z :=
  let options := {| lgm_ListOptions := {| Page := 1; PerPage := 1 |} |} in
  res ← ListGroupMembers git (ID group) options;
  match res with
  | ApiErr err =>
      fmt_Print ("Failed to list members for group " +:+ ID group +:+
                 ": " +:+ err +:+ nl);;
      os_Exit 1
  | ApiOk _ resp => mret (TotalItems resp)
  end.

(** A [for ... range] loop whose body updates a local object. *)
Fixpoint for_range_with {A S} (xs : list A) (body : S → A → M S) (s : S)
    : M S :=
  match xs with
  | [] => mret s
  | x :: xs' => s' ← body s x; for_range_with xs' body s'
  end.

(** The body of the loop of [scrape] over [config.Groups]. *)
Definition scrape_group (git : Client) (config : Config) (pusher : Pusher)
    (group : GroupConfig) : M Pusher :=
  pusher ←
    match ProjectCount group with
    | Some _ =>
        projectCount ← getProjectCount git group;
        fmt_Print ("Project count in group " +:+ ID group +:+ ": " +:+
                   pretty projectCount +:+ nl);;
        groupLabels ← new_map {[ "group_id" := ID group ]};
        labels ← mergeLabels [DefaultLabels config; groupLabels];
        projectCountGauge ←
          prometheus_NewGauge "gitlab_group_project_count"
            "Number of projects in the GitLab group" labels;
        let projectCountGauge :=
          Gauge_Set projectCountGauge (float64_of_int projectCount) in
        mret (Pusher_Collector pusher projectCountGauge)
    | None => mret pusher
    end;
  match MemberCount group with
  | Some _ =>
      groupMembersCount ← getGroupMembersCount git group;
      fmt_Print ("Group members count in group " +:+ ID group +:+ ": " +:+
                 pretty groupMembersCount +:+ nl);;
      groupLabels ← new_map {[ "group_id" := ID group ]};
      labels ← mergeLabels [DefaultLabels config; groupLabels];
      groupMembersCountGauge ←
        prometheus_NewGauge "gitlab_group_members_count"
          "Number of members in the GitLab group" labels;
      let groupMembersCountGauge :=
        Gauge_Set groupMembersCountGauge (float64_of_int groupMembersCount) in
      mret (Pusher_Collector pusher groupMembersCountGauge)
  | None => mret pusher
  end.

(** [scrape(config, accessToken, pushGatewayURL)]. [config] is the address
    of a local variable of [Run], so it is taken by value; the pusher is a
    local object of the function and is threaded through the loop. *)
Definition scrape (env : Env) (config : Config)
    (accessToken pushGatewayURL : string) : M unit :=
  match gitlab_NewClient env accessToken with
  | inr err =>
      fmt_Print ("Failed to create client: " +:+ err +:+ nl);;
      os_Exit 1
  | inl git =>
      let pusher := push_New pushGatewayURL "gitlab_scrape" in
      pusher ← for_range_with (Groups config) (scrape_group git config) pusher;
      err ← Pusher_Push env pusher;
      match err with
      | Some err =>
          fmt_Print ("Failed to push metrics to Push Gateway: " +:+ err +:+ nl);;
          os_Exit 1
      | None => mret tt
      end
  end.

(** The [Run] function of [scrapeCmd]. *)
Definition scrapeCmd_Run (env : Env) (configFile : string) : M unit :=
  match viper_ReadInConfig env configFile with
  | Some err =>
      fmt_Print ("Failed to read config file: " +:+ err +:+ nl);;
      os_Exit 1
  | None => mret tt
  end;;
  accessToken ← getRequiredValue env "access_token" "GITLAB_ACCESS_TOKEN"
    "Please provide an access token using the --token flag or GITLAB_ACCESS_TOKEN environment variable";
  pushGatewayURL ← getRequiredValue env "push_gateway_url" "PUSHGATEWAY_URL"
    "Please provide a Push Gateway URL using the --pushgateway flag or PUSHGATEWAY_URL environment variable";
  r ← viper_Unmarshal env;
  match r with
  | inr err =>
      fmt_Print ("Failed to unmarshal config: " +:+ err +:+ nl);;
      os_Exit 1
  | inl config => scrape env config accessToken pushGatewayURL
  end.

(** * Vocabulary of the statements *)

(** The labels of a merge by contents: the sets laid over each other from
    the first to the last. *)
Definition merge_sets (sets : list Labels) : Labels :=
  foldl (λ acc s, s ∪ acc) ∅ sets.

(** The options both collectors build: one item of the first page. *)
Definition single_item_page : ListOptions := {| Page := 1; PerPage := 1 |}.

Definition project_options (includeSubGroups : bool)
    : ListGroupProjectsOptions :=
  {| lgp_IncludeSubGroups := Some includeSubGroups;
     lgp_ListOptions := single_item_page;
     lgp_Simple := Some true |}.

Definition member_options : ListGroupMembersOptions :=
  {| lgm_ListOptions := single_item_page |}.

Inductive Request :=
| ReqProjects (gid : string) (opt : ListGroupProjectsOptions)
| ReqMembers (gid : string) (opt : ListGroupMembersOptions).

(** The requests of one group, by the fields that are present: projects
    before members. *)
Definition requests_of_group (g : GroupConfig) : list Request :=
  match ProjectCount g with
  | Some pc =>
      [ReqProjects (ID g) (project_options (default false (IncludeSubGroups pc)))]
  | None => []
  end ++
  match MemberCount g with
  | Some _ => [ReqMembers (ID g) member_options]
  | None => []
  end.

Definition plan (groups : list GroupConfig) : list Request :=
  concat (requests_of_group <$> groups).

Definition call_request (c : Call) : option Request :=
  match c with
  | CallListGroupProjects gid opt _ => Some (ReqProjects gid opt)
  | CallListGroupMembers gid opt _ => Some (ReqMembers gid opt)
  | CallPush _ _ _ _ => None
  end.

(** A list call whose answer is an error. *)
Definition call_failed (c : Call) : bool :=
  match c with
  | CallListGroupProjects _ _ res => negb (api_ok res)
  | CallListGroupMembers _ _ res => negb (api_ok res)
  | CallPush _ _ _ _ => false
  end.

Definition is_push (c : Call) : bool :=
  match c with CallPush _ _ _ _ => true | _ => false end.

Definition group_labels (defaults : Labels) (gid : string) : Labels :=
  {[ "group_id" := gid ]} ∪ defaults.

Definition project_gauge (defaults : Labels) (gid : string) (total : Z)
    : Gauge :=
  mkGauge "gitlab_group_project_count" "Number of projects in the GitLab group"
    (group_labels defaults gid) (float64_of_int total).

Definition member_gauge (defaults : Labels) (gid : string) (total : Z)
    : Gauge :=
  mkGauge "gitlab_group_members_count" "Number of members in the GitLab group"
    (group_labels defaults gid) (float64_of_int total).

(** The sample of an answered list call. *)
Definition gauge_of_call (defaults : Labels) (c : Call) : option Gauge :=
  match c with
  | CallListGroupProjects gid _ (ApiOk _ resp) =>
      Some (project_gauge defaults gid (TotalItems resp))
  | CallListGroupMembers gid _ (ApiOk _ resp) =>
      Some (member_gauge defaults gid (TotalItems resp))
  | _ => None
  end.

(** The line a collector prints before it exits. *)
Definition failure_line (c : Call) : string :=
  match c with
  | CallListGroupProjects gid _ (ApiErr err) =>
      "Failed to list projects for group " +:+ gid +:+ ": " +:+ err +:+ nl
  | CallListGroupMembers gid _ (ApiErr err) =>
      "Failed to list members for group " +:+ gid +:+ ": " +:+ err +:+ nl
  | _ => EmptyString
  end.

(** The calls [cs] answer the requests [reqs] one for one, and [batch]
    holds their samples in the same order. *)
Definition collected (defaults : Labels) (reqs : list Request)
    (cs : list Call) (batch : list Gauge) : Prop :=
  Forall2 (λ c r, call_request c = Some r) cs reqs ∧
  Forall2 (λ c g, gauge_of_call defaults c = Some g) cs batch.

(** How the loop over a list of requests can end, from the pusher [p] and
    the world [w]: with every request answered and the samples added to
    the pusher, or at the first failed call, with the line of the failing
    collector printed last and exit status 1. *)
Inductive loop_outcome (defaults : Labels) (reqs : list Request) (p : Pusher)
    (w : World) : Result Pusher * World → Prop :=
| loop_completed (h' : list Labels) (out : list string) (cs : list Call)
    (batch : list Gauge) :
    collected defaults reqs cs batch →
    loop_outcome defaults reqs p w
      (Done (mkPusher (pusher_url p) (pusher_job p)
               (pusher_collectors p ++ batch)),
       mkWorld (heap w ++ h') (stdout w ++ out) (calls w ++ cs))
| loop_aborted (h' : list Labels) (out : list string) (cs0 : list Call)
    (c : Call) (batch : list Gauge) (done : list Request) (r : Request)
    (rest : list Request) :
    reqs = done ++ r :: rest →
    collected defaults done cs0 batch →
    call_request c = Some r →
    call_failed c = true →
    loop_outcome defaults reqs p w
      (Exited 1,
       mkWorld (heap w ++ h') (stdout w ++ out ++ [failure_line c])
         (calls w ++ cs0 ++ [c])).

(** The store [w] holds the default labels [d], untouched so far. *)
Definition holds_defaults (config : Config) (d : Labels) (w : World) : Prop :=
  valid_ref (heap w) (DefaultLabels config) ∧
  read_map (heap w) (DefaultLabels config) = d.

(** What follows a collector in the body of the loop: the progress line,
    the merged labels, the gauge and its registration. *)
Definition emit (config : Config) (pusher : Pusher)
    (gid name help line : string) (count : Z) : M Pusher :=
  fmt_Print line;;
  groupLabels ← new_map {[ "group_id" := gid ]};
  labels ← mergeLabels [DefaultLabels config; groupLabels];
  gauge ← prometheus_NewGauge name help labels;
  mret (Pusher_Collector pusher (Gauge_Set gauge (float64_of_int count))).

(** The two halves of the body of the loop. *)
Definition project_block (git : Client) (config : Config) (pusher : Pusher)
    (group : GroupConfig) : M Pusher :=
  match ProjectCount group with
  | Some _ =>
      projectCount ← getProjectCount git group;
      emit config pusher (ID group) "gitlab_group_project_count"
        "Number of projects in the GitLab group"
        ("Project count in group " +:+ ID group +:+ ": " +:+
         pretty projectCount +:+ nl) projectCount
  | None => mret pusher
  end.

Definition member_block (git : Client) (config : Config) (pusher : Pusher)
    (group : GroupConfig) : M Pusher :=
  match MemberCount group with
  | Some _ =>
      groupMembersCount ← getGroupMembersCount git group;
      emit config pusher (ID group) "gitlab_group_members_count"
        "Number of members in the GitLab group"
        ("Group members count in group " +:+ ID group +:+ ": " +:+
         pretty groupMembersCount +:+ nl) groupMembersCount
  | None => mret pusher
  end.

Definition client_failure_line (err : string) : string :=
  "Failed to create client: " +:+ err +:+ nl.

Definition push_failure_line (err : string) : string :=
  "Failed to push metrics to Push Gateway: " +:+ err +:+ nl.

(** How [scrape] can end from the world [w]. *)
Inductive scrape_outcome (d : Labels) (gs : list GroupConfig) (url : string)
    (w : World) : Result unit * World → Prop :=
| scrape_no_client (h' : list Labels) (err : string) :
    scrape_outcome d gs url w
      (Exited 1,
       mkWorld (heap w ++ h') (stdout w ++ [client_failure_line err])
         (calls w))
| scrape_pushed (h' : list Labels) (out : list string) (cs : list Call)
    (batch : list Gauge) :
    collected d (plan gs) cs batch →
    scrape_outcome d gs url w
      (Done tt,
       mkWorld (heap w ++ h') (stdout w ++ out)
         (calls w ++ cs ++ [CallPush url "gitlab_scrape" batch None]))
| scrape_push_failed (h' : list Labels) (out : list string) (cs : list Call)
    (batch : list Gauge) (err : string) :
    collected d (plan gs) cs batch →
    scrape_outcome d gs url w
      (Exited 1,
       mkWorld (heap w ++ h') (stdout w ++ out ++ [push_failure_line err])
         (calls w ++ cs ++ [CallPush url "gitlab_scrape" batch (Some err)]))
| scrape_collector_failed (h' : list Labels) (out : list string)
    (cs0 : list Call) (c : Call) (batch : list Gauge) (done : list Request)
    (r : Request) (rest : list Request) :
    plan gs = done ++ r :: rest →
    collected d done cs0 batch →
    call_request c = Some r →
    call_failed c = true →
    scrape_outcome d gs url w
      (Exited 1,
       mkWorld (heap w ++ h') (stdout w ++ out ++ [failure_line c])
         (calls w ++ cs0 ++ [c])).

Definition read_failure_line (err : string) : string :=
  "Failed to read config file: " +:+ err +:+ nl.

Definition unmarshal_failure_line (err : string) : string :=
  "Failed to unmarshal config: " +:+ err +:+ nl.

Definition token_missing_line : string :=
  "Please provide an access token using the --token flag or GITLAB_ACCESS_TOKEN environment variable" +:+ nl.

Definition url_missing_line : string :=
  "Please provide a Push Gateway URL using the --pushgateway flag or PUSHGATEWAY_URL environment variable" +:+ nl.

Definition token_of (env : Env) : string :=
  viper_GetString env "access_token" "GITLAB_ACCESS_TOKEN".

Definition url_of (env : Env) : string :=
  viper_GetString env "push_gateway_url" "PUSHGATEWAY_URL".

Definition print_and_exit (line : string) (w : World) : Result unit * World :=
  (Exited 1, mkWorld (heap w) (stdout w ++ [line]) (calls w)).

(** How the command can end from the world [w]. *)
Inductive run_outcome (env : Env) (configFile : string) (w : World)
    : Result unit * World → Prop :=
| run_read_failed (err : string) :
    viper_ReadInConfig env configFile = Some err →
    run_outcome env configFile w (print_and_exit (read_failure_line err) w)
| run_token_missing :
    viper_ReadInConfig env configFile = None →
    token_of env = EmptyString →
    run_outcome env configFile w (print_and_exit token_missing_line w)
| run_url_missing :
    viper_ReadInConfig env configFile = None →
    token_of env ≠ EmptyString →
    url_of env = EmptyString →
    run_outcome env configFile w (print_and_exit url_missing_line w)
| run_unmarshal_failed (err : string) :
    viper_ReadInConfig env configFile = None →
    token_of env ≠ EmptyString →
    url_of env ≠ EmptyString →
    viper_decode env = DecodeError err →
    run_outcome env configFile w (print_and_exit (unmarshal_failure_line err) w)
| run_scraped (dl : option Labels) (gs : list GroupConfig)
    (o : Result unit * World) :
    viper_ReadInConfig env configFile = None →
    token_of env ≠ EmptyString →
    url_of env ≠ EmptyString →
    viper_decode env = DecodedConfig dl gs →
    scrape_outcome (default ∅ dl) gs (url_of env) w o →
    run_outcome env configFile w o.

Module Scenario.

(** The store before a run: the default labels of the configuration. *)
Definition team_store : World := mkWorld [ {[ "team" := "x" ]} ] [] [].

Definition empty_world : World := mkWorld [] [] [].

Definition projects_only (gid : string) : GroupConfig :=
  mkGroupConfig gid (Some (mkProjectCountConfig None)) None.

Definition members_only (gid : string) : GroupConfig :=
  mkGroupConfig gid None (Some mkMemberCountConfig).

Definition both_specs (gid : string) : GroupConfig :=
  mkGroupConfig gid (Some (mkProjectCountConfig None))
    (Some mkMemberCountConfig).

Definition no_specs (gid : string) : GroupConfig := mkGroupConfig gid None None.

Definition with_subgroups (gid : string) (b : bool) : GroupConfig :=
  mkGroupConfig gid (Some (mkProjectCountConfig (Some b))) None.

(** Totals 3 and 7 for the projects of G1 and G2, 2 for the members of G2;
    the body of every answer holds one record. *)
Definition totals_client : Client := {|
  Groups_ListGroupProjects := λ _ gid _,
    if decide (gid = "G1") then ApiOk [mkProject 11] (mkResponse 3)
    else if decide (gid = "G2") then ApiOk [mkProject 21] (mkResponse 7)
    else ApiErr "404 Not Found";
  Groups_ListGroupMembers := λ _ gid _,
    if decide (gid = "G2") then ApiOk [mkGroupMember 5] (mkResponse 2)
    else ApiErr "404 Not Found"
|}.

(** Total 25 with sub-groups, 10 without. *)
Definition toggle_client : Client := {|
  Groups_ListGroupProjects := λ _ _ opt,
    match lgp_IncludeSubGroups opt with
    | Some true => ApiOk [] (mkResponse 25)
    | _ => ApiOk [] (mkResponse 10)
    end;
  Groups_ListGroupMembers := λ _ _ _, ApiOk [] (mkResponse 0)
|}.

(** Every request about G2 is refused. *)
Definition failing_client : Client := {|
  Groups_ListGroupProjects := λ _ gid _,
    if decide (gid = "G2") then ApiErr "401 Unauthorized"
    else ApiOk [mkProject 1] (mkResponse 4);
  Groups_ListGroupMembers := λ _ gid _,
    if decide (gid = "G2") then ApiErr "401 Unauthorized"
    else ApiOk [mkGroupMember 1] (mkResponse 6)
|}.

Definition env_of (git : Client) (decoded : Decoded) : Env := {|
  viper_ReadInConfig := λ _, None;
  viper_GetString := λ key _,
    if decide (key = "access_token") then "glpat-token"
    else "http://localhost:9091";
  viper_decode := decoded;
  gitlab_NewClient := λ _, inl git;
  gateway_push := λ _ _ _ _, None
|}.

Definition two_groups : list GroupConfig :=
  [projects_only "G1"; both_specs "G2"].

Definition three_groups : list GroupConfig :=
  [both_specs "G1"; both_specs "G2"; both_specs "G3"].

Definition end_to_end_env : Env :=
  env_of totals_client (DecodedConfig (Some {[ "team" := "x" ]}) two_groups).

Definition failing_env : Env :=
  env_of failing_client (DecodedConfig (Some {[ "team" := "x" ]}) three_groups).

End Scenario.

(** The contents of the map [mergeLabels] returns. *)
Definition merged_labels (labelSets : list mapref) (w : World) : Labels :=
  match mergeLabels labelSets w with
  | (Done r, w') => read_map (heap w') r
  | _ => ∅
  end.

(** The series a configuration asks for, by metric name and [group_id]:
    group by group, the project count before the member count. *)
Definition expected_series (groups : list GroupConfig)
    : list (string * option string) :=
  concat
    ((λ g,
        match ProjectCount g with
        | Some _ => [("gitlab_group_project_count", Some (ID g))]
        | None => []
        end ++
        match MemberCount g with
        | Some _ => [("gitlab_group_members_count", Some (ID g))]
        | None => []
        end) <$> groups).

Definition series_of (g : Gauge) : string * option string :=
  (Name g, ConstLabels g !! "group_id").

Definition request_series (r : Request) : string * option string :=
  match r with
  | ReqProjects gid _ => ("gitlab_group_project_count", Some gid)
  | ReqMembers gid _ => ("gitlab_group_members_count", Some gid)
  end.

(** An environment whose configuration file cannot be read. *)
Definition unreadable_env : Env := {|
  viper_ReadInConfig := λ _, Some "open config.json: no such file or directory";
  viper_GetString := λ _ _, EmptyString;
  viper_decode := DecodeError "no configuration";
  gitlab_NewClient := λ _, inl Scenario.totals_client;
  gateway_push := λ _ _ _ _, None
|}.

(** The line printed after an answered list call. *)
Definition progress_line (c : Call) : string :=
  match c with
  | CallListGroupProjects gid _ (ApiOk _ resp) =>
      "Project count in group " +:+ gid +:+ ": " +:+
      pretty (TotalItems resp) +:+ nl
  | CallListGroupMembers gid _ (ApiOk _ resp) =>
      "Group members count in group " +:+ gid +:+ ": " +:+
      pretty (TotalItems resp) +:+ nl
  | _ => EmptyString
  end.

(** The line a call leaves on standard output, if it leaves one. *)
Definition line_of_call (c : Call) : option string :=
  match c with
  | CallListGroupProjects _ _ res | CallListGroupMembers _ _ res =>
      if call_failed c then Some (failure_line c) else Some (progress_line c)
  | CallPush _ _ _ (Some err) => Some (push_failure_line err)
  | CallPush _ _ _ None => None
  end.

(** A computation whose new output is the lines of its new calls. *)
Definition traced {A} (m : M A) (w : World) : Prop :=
  ∃ cs : list Call,
    calls (snd (m w)) = calls w ++ cs ∧
    stdout (snd (m w)) = stdout w ++ omap line_of_call cs.

(** A list call with the options the collectors build. *)
Definition frugal (c : Call) : Prop :=
  match c with
  | CallListGroupProjects _ opt _ =>
      lgp_ListOptions opt = {| Page := 1; PerPage := 1 |} ∧
      lgp_Simple opt = Some true ∧ is_Some (lgp_IncludeSubGroups opt)
  | CallListGroupMembers _ opt _ =>
      lgm_ListOptions opt = {| Page := 1; PerPage := 1 |}
  | CallPush _ _ _ _ => True
  end.

(** Two label sets that give a key they share the same value. *)
Definition agree (a b : Labels) : Prop :=
  ∀ (k v v' : string), a !! k = Some v → b !! k = Some v' → v = v'.

(** The group a request is about. *)
Definition request_gid (r : Request) : string :=
  match r with
  | ReqProjects gid _ => gid
  | ReqMembers gid _ => gid
  end.

(** The total-item count an answered list call reports. *)
Definition call_total (c : Call) : option Z :=
  match c with
  | CallListGroupProjects _ _ (ApiOk _ resp) => Some (TotalItems resp)
  | CallListGroupMembers _ _ (ApiOk _ resp) => Some (TotalItems resp)
  | _ => None
  end.

(** The end of [scrape]: the push, and the line and the exit when the
    push is refused. *)
Definition push_and_report (env : Env) (pusher : Pusher) : M unit :=
  err ← Pusher_Push env pusher;
  match err with
  | Some err =>
      fmt_Print ("Failed to push metrics to Push Gateway: " +:+ err +:+ nl);;
      os_Exit 1
  | None => mret tt
  end.

(** An environment in which the client cannot be created. *)
Definition clientless_env : Env := {|
  viper_ReadInConfig := λ _, None;
  viper_GetString := λ key _,
    if decide (key = "access_token") then "glpat-token"
    else "http://localhost:9091";
  viper_decode := DecodedConfig None Scenario.two_groups;
  gitlab_NewClient := λ _, inr "invalid base URL";
  gateway_push := λ _ _ _ _, None
|}.

(** * Lemmas *)

Lemma copy_entries_union (dst src : Labels) : copy_entries dst src = src ∪ dst.
Proof.
  unfold copy_entries.
  induction src as [|k v src Hk Hfold IH] using map_first_key_ind.
  - by rewrite map_fold_empty, (left_id_L ∅ (∪)).
  - rewrite map_fold_insert_first_key by done.
    by rewrite IH, insert_union_l.
Qed.

Lemma merge_sets_snoc (sets : list Labels) (s : Labels) :
  merge_sets (sets ++ [s]) = s ∪ merge_sets sets.
Proof. unfold merge_sets. by rewrite foldl_app. Qed.

(** A key of the merge holds the value of the last set that has the key. *)
Lemma merge_sets_lookup_Some (sets : list Labels) (k v : string) :
  merge_sets sets !! k = Some v ↔
  ∃ (i : nat) (s : Labels),
    sets !! i = Some s ∧ s !! k = Some v ∧
    ∀ (j : nat) (s' : Labels), (i < j)%nat → sets !! j = Some s' → s' !! k = None.
Proof.
  induction sets as [|s sets IH] using rev_ind.
  - change (merge_sets []) with (∅ : Labels).
    split; [by rewrite lookup_empty|]. by intros (i & s & Hi & _).
  - rewrite merge_sets_snoc, lookup_union_Some_raw, IH. split.
    + intros [Hs | (Hs & i & s0 & Hi & Hk & Hlater)].
      * exists (length sets), s. split; [by rewrite list_lookup_middle|].
        split; [done|]. intros j s' Hj Hs'.
        apply lookup_lt_Some in Hs'. rewrite length_app in Hs'. simpl in Hs'. lia.
      * exists i, s0. split; [by apply lookup_app_l_Some|]. split; [done|].
        intros j s' Hj Hs'. apply lookup_app_Some in Hs'.
        destruct Hs' as [Hs' | [Hlen Hs']]; [by eapply Hlater|].
        apply list_lookup_singleton_Some in Hs' as [_ <-]. done.
    + intros (i & s0 & Hi & Hk & Hlater).
      apply lookup_app_Some in Hi. destruct Hi as [Hi | [Hlen Hi]].
      * right. split.
        { apply (Hlater (length sets)); [by eapply lookup_lt_Some|].
          by rewrite list_lookup_middle. }
        exists i, s0. split; [done|]. split; [done|].
        intros j s' Hj Hs'. eapply Hlater; [done|]. by apply lookup_app_l_Some.
      * left. apply list_lookup_singleton_Some in Hi as [_ <-]. done.
Qed.

Lemma merge_sets_lookup_None (sets : list Labels) (k : string) :
  merge_sets sets !! k = None ↔ ∀ s : Labels, s ∈ sets → s !! k = None.
Proof.
  induction sets as [|s sets IH] using rev_ind.
  - change (merge_sets []) with (∅ : Labels).
    split; [by intros _ s ?%elem_of_nil | by rewrite lookup_empty].
  - rewrite merge_sets_snoc, lookup_union_None, IH. split.
    + intros [Hs Hrest] s' Hin. apply elem_of_app in Hin as [Hin | Hin].
      * by apply Hrest.
      * apply list_elem_of_singleton in Hin. by rewrite Hin.
    + intros H. split.
      * apply H, elem_of_app. right. by apply list_elem_of_singleton.
      * intros s' Hs'. apply H, elem_of_app. by left.
Qed.

Lemma merge_sets_empty_set (before after : list Labels) :
  merge_sets (before ++ ∅ :: after) = merge_sets (before ++ after).
Proof.
  unfold merge_sets. rewrite !foldl_app. simpl.
  by rewrite (left_id_L ∅ (∪)).
Qed.

Lemma bind_unfold {A B} (m : M A) (k : A → M B) (w : World) :
  (m ≫= k) w =
  match m w with
  | (Done a, w') => k a w'
  | (Exited c, w') => (Exited c, w')
  | (Panicked, w') => (Panicked, w')
  end.
Proof. reflexivity. Qed.

Lemma mret_unfold {A} (a : A) (w : World) : (mret a : M A) w = (Done a, w).
Proof. reflexivity. Qed.

Lemma read_map_app_valid (h h' : list Labels) (r : mapref) :
  valid_ref h r → read_map (h ++ h') r = read_map h r.
Proof.
  destruct r as [l|]; simpl; [|done].
  intros Hl. by rewrite lookup_app_l.
Qed.

Lemma valid_ref_app (h h' : list Labels) (r : mapref) :
  valid_ref h r → valid_ref (h ++ h') r.
Proof. destruct r as [l|]; simpl; [|done]. rewrite length_app. lia. Qed.

(** Reading a source while the result map sits at the end of the store. *)
Lemma read_map_under_result (h : list Labels) (acc : Labels) (r : mapref) :
  read_map (h ++ [acc]) r ∪ acc = read_map h r ∪ acc.
Proof.
  destruct r as [l|]; simpl; [|done].
  destruct (decide (l < length h)%nat) as [Hlt|Hge].
  - by rewrite lookup_app_l.
  - rewrite (lookup_ge_None_2 h l) by lia. simpl.
    destruct (decide (l = length h)) as [->|Hne].
    + rewrite list_lookup_middle by done. simpl.
      by rewrite (idemp_L (∪)), (left_id_L ∅ (∪)).
    + rewrite lookup_ge_None_2; [done|]. rewrite length_app. simpl. lia.
Qed.

Lemma for_range_copy (h : list Labels) (acc : Labels) (refs : list mapref)
    (out : list string) (cs : list Call) :
  for_range refs (λ labels, maps_Copy (Some (length h)) labels)
    (mkWorld (h ++ [acc]) out cs) =
  (Done tt,
   mkWorld (h ++ [foldl (λ acc s, s ∪ acc) acc (read_map h <$> refs)]) out cs).
Proof.
  revert acc. induction refs as [|r refs IH]; intros acc; [done|].
  simpl. rewrite bind_unfold. unfold maps_Copy at 1. simpl.
  replace (length h) with (length h + 0)%nat at 1 by lia.
  rewrite alter_app_r. simpl.
  rewrite copy_entries_union, read_map_under_result. apply IH.
Qed.

Lemma mergeLabels_spec (labelSets : list mapref) (w : World) :
  mergeLabels labelSets w =
  (Done (Some (length (heap w))),
   mkWorld (heap w ++ [merge_sets (read_map (heap w) <$> labelSets)])
     (stdout w) (calls w)).
Proof.
  unfold mergeLabels. rewrite bind_unfold. unfold new_map at 1.
  rewrite bind_unfold, for_range_copy. reflexivity.
Qed.

Lemma getProjectCount_eq (git : Client) (g : GroupConfig)
    (pc : ProjectCountConfig) (w : World) :
  ProjectCount g = Some pc →
  getProjectCount git g w =
  let opt := project_options (default false (IncludeSubGroups pc)) in
  let res := Groups_ListGroupProjects git (calls w) (ID g) opt in
  let c := CallListGroupProjects (ID g) opt res in
  match res with
  | ApiOk _ resp =>
      (Done (TotalItems resp), mkWorld (heap w) (stdout w) (calls w ++ [c]))
  | ApiErr _ =>
      (Exited 1,
       mkWorld (heap w) (stdout w ++ [failure_line c]) (calls w ++ [c]))
  end.
Proof.
  intros Hpc. unfold getProjectCount. rewrite Hpc.
  rewrite bind_unfold. unfold ListGroupProjects at 1.
  destruct (IncludeSubGroups pc) as [b|];
    unfold project_options, single_item_page; simpl;
    match goal with
    | |- context [Groups_ListGroupProjects ?a ?b ?c ?d] =>
        destruct (Groups_ListGroupProjects a b c d)
    end; reflexivity.
Qed.

Lemma getGroupMembersCount_eq (git : Client) (g : GroupConfig) (w : World) :
  getGroupMembersCount git g w =
  let res := Groups_ListGroupMembers git (calls w) (ID g) member_options in
  let c := CallListGroupMembers (ID g) member_options res in
  match res with
  | ApiOk _ resp =>
      (Done (TotalItems resp), mkWorld (heap w) (stdout w) (calls w ++ [c]))
  | ApiErr _ =>
      (Exited 1,
       mkWorld (heap w) (stdout w ++ [failure_line c]) (calls w ++ [c]))
  end.
Proof.
  unfold getGroupMembersCount. rewrite bind_unfold.
  unfold ListGroupMembers at 1, member_options, single_item_page. simpl.
  match goal with
  | |- context [Groups_ListGroupMembers ?a ?b ?c ?d] =>
      destruct (Groups_ListGroupMembers a b c d)
  end; reflexivity.
Qed.

Lemma scrape_group_blocks (git : Client) (config : Config) (pusher : Pusher)
    (group : GroupConfig) :
  scrape_group git config pusher group =
  (pusher ← project_block git config pusher group;
   member_block git config pusher group).
Proof. reflexivity. Qed.

Lemma merge_sets_pair (d gl : Labels) : merge_sets [d; gl] = gl ∪ d.
Proof. unfold merge_sets. simpl. by rewrite (right_id_L ∅ (∪)). Qed.

Lemma emit_eq (config : Config) (p : Pusher) (gid name help line : string)
    (count : Z) (w : World) :
  valid_ref (heap w) (DefaultLabels config) →
  emit config p gid name help line count w =
  let d := read_map (heap w) (DefaultLabels config) in
  (Done (Pusher_Collector p
           (mkGauge name help (group_labels d gid) (float64_of_int count))),
   mkWorld (heap w ++ [ {[ "group_id" := gid ]}; group_labels d gid ])
     (stdout w ++ [line]) (calls w)).
Proof.
  intros Hvalid. unfold emit.
  rewrite bind_unfold. unfold fmt_Print at 1.
  rewrite bind_unfold. unfold new_map at 1.
  rewrite bind_unfold, mergeLabels_spec.
  rewrite bind_unfold. unfold prometheus_NewGauge at 1.
  cbn [heap stdout calls fmap list_fmap].
  rewrite (read_map_app_valid _ _ _ Hvalid).
  assert (Hgl : read_map (heap w ++ [ {[ "group_id" := gid ]} ])
                  (Some (length (heap w))) = {[ "group_id" := gid ]}).
  { simpl. by rewrite list_lookup_middle. }
  rewrite Hgl, merge_sets_pair.
  assert (Hnew : ∀ (h : list Labels) (m : Labels),
            read_map (h ++ [m]) (Some (length h)) = m).
  { intros h m. simpl. by rewrite list_lookup_middle. }
  rewrite Hnew, <- app_assoc. reflexivity.
Qed.

Lemma collected_nil (d : Labels) : collected d [] [] [].
Proof. split; constructor. Qed.

Lemma collected_app (d : Labels) (r1 r2 : list Request) (cs1 cs2 : list Call)
    (b1 b2 : list Gauge) :
  collected d r1 cs1 b1 → collected d r2 cs2 b2 →
  collected d (r1 ++ r2) (cs1 ++ cs2) (b1 ++ b2).
Proof. intros [? ?] [? ?]. split; by apply Forall2_app. Qed.

Lemma loop_outcome_heap (d : Labels) (reqs : list Request) (p : Pusher)
    (w : World) (o : Result Pusher * World) :
  loop_outcome d reqs p w o → ∃ h' : list Labels, heap (snd o) = heap w ++ h'.
Proof. intros [h' ? ? ? ?|h' ? ? ? ? ? ? ? ? ? ? ?]; by exists h'. Qed.

Lemma loop_outcome_empty (d : Labels) (p : Pusher) (w : World) :
  loop_outcome d [] p w (Done p, w).
Proof.
  pose proof (loop_completed d [] p w [] [] [] [] (collected_nil d)) as H.
  destruct p, w. simpl in H. by rewrite !app_nil_r in H.
Qed.

Lemma loop_outcome_seq (d : Labels) (r1 r2 : list Request) (p p1 : Pusher)
    (w w1 : World) (o : Result Pusher * World) :
  loop_outcome d r1 p w (Done p1, w1) →
  loop_outcome d r2 p1 w1 o →
  loop_outcome d (r1 ++ r2) p w o.
Proof.
  intros H1 H2. inversion H1 as [h1 out1 cs1 b1 Hc1|]; subst; clear H1.
  destruct H2 as [h2 out2 cs2 b2 Hc2|h2 out2 cs0 c b2 done r rest -> Hc2 Hr Hf];
    cbn [heap stdout calls pusher_url pusher_job pusher_collectors].
  - rewrite <- !app_assoc. apply loop_completed. by apply collected_app.
  - rewrite <- !app_assoc.
    rewrite (app_assoc out1 out2), (app_assoc cs1 cs0).
    eapply (loop_aborted _ _ _ _ _ _ _ _ (b1 ++ b2) (r1 ++ done) r rest);
      [by rewrite <- app_assoc | by apply collected_app | done | done].
Qed.

Lemma loop_outcome_exit (d : Labels) (r1 r2 : list Request) (p : Pusher)
    (w w1 : World) (code : Z) :
  loop_outcome d r1 p w (Exited code, w1) →
  loop_outcome d (r1 ++ r2) p w (Exited code, w1).
Proof.
  intros H. inversion H as [|h' out cs0 c b done r rest Hreqs Hc Hr Hf]; subst.
  eapply loop_aborted; [by rewrite <- app_assoc | done..].
Qed.

Lemma loop_outcome_not_panicked (d : Labels) (reqs : list Request) (p : Pusher)
    (w w1 : World) :
  ¬ loop_outcome d reqs p w (Panicked, w1).
Proof. intros H. inversion H. Qed.

Lemma bind_loop_outcome (d : Labels) (r1 r2 : list Request) (p : Pusher)
    (w : World) (m : M Pusher) (k : Pusher → M Pusher) :
  loop_outcome d r1 p w (m w) →
  (∀ p1 w1, m w = (Done p1, w1) → loop_outcome d r2 p1 w1 (k p1 w1)) →
  loop_outcome d (r1 ++ r2) p w ((m ≫= k) w).
Proof.
  intros H1 H2. rewrite bind_unfold.
  destruct (m w) as [[p1|code|] w1] eqn:Hm.
  - eapply loop_outcome_seq; [done|by apply H2].
  - by apply loop_outcome_exit.
  - by apply loop_outcome_not_panicked in H1.
Qed.

Section Group.
Context (git : Client) (config : Config) (d : Labels).

Lemma holds_defaults_outcome (reqs : list Request) (p p1 : Pusher)
    (w w1 : World) :
  holds_defaults config d w → loop_outcome d reqs p w (Done p1, w1) →
  holds_defaults config d w1.
Proof.
  intros [Hv Hd] [h' Hh]%loop_outcome_heap. simpl in Hh.
  unfold holds_defaults. rewrite Hh. split.
  - by apply valid_ref_app.
  - by rewrite read_map_app_valid.
Qed.

Lemma project_block_outcome (p : Pusher) (g : GroupConfig) (w : World) :
  holds_defaults config d w →
  loop_outcome d
    match ProjectCount g with
    | Some pc =>
        [ReqProjects (ID g)
           (project_options (default false (IncludeSubGroups pc)))]
    | None => []
    end p w (project_block git config p g w).
Proof.
  intros [Hv Hd]. unfold project_block.
  destruct (ProjectCount g) as [pc|] eqn:Hpc; [|apply loop_outcome_empty].
  rewrite bind_unfold, (getProjectCount_eq _ _ pc) by done. cbv zeta.
  destruct (Groups_ListGroupProjects _ _ _ _) as [items resp|err] eqn:Hres.
  - rewrite emit_eq by done. cbn [heap stdout calls]. rewrite Hd.
    apply (loop_completed d _ p w _ _ [_] [_]).
    split; repeat constructor.
  - match goal with
    | |- context [calls w ++ [?c]] =>
        pose proof (loop_aborted d
          [ReqProjects (ID g)
             (project_options (default false (IncludeSubGroups pc)))]
          p w [] [] [] c [] [] _ [] eq_refl (collected_nil d) eq_refl eq_refl)
          as H
    end.
    simpl in H. by rewrite app_nil_r in H.
Qed.

Lemma member_block_outcome (p : Pusher) (g : GroupConfig) (w : World) :
  holds_defaults config d w →
  loop_outcome d
    match MemberCount g with
    | Some _ => [ReqMembers (ID g) member_options]
    | None => []
    end p w (member_block git config p g w).
Proof.
  intros [Hv Hd]. unfold member_block.
  destruct (MemberCount g) as [mc|] eqn:Hmc; [|apply loop_outcome_empty].
  rewrite bind_unfold, getGroupMembersCount_eq. cbv zeta.
  destruct (Groups_ListGroupMembers _ _ _ _) as [items resp|err] eqn:Hres.
  - rewrite emit_eq by done. cbn [heap stdout calls]. rewrite Hd.
    apply (loop_completed d _ p w _ _ [_] [_]).
    split; repeat constructor.
  - match goal with
    | |- context [calls w ++ [?c]] =>
        pose proof (loop_aborted d [ReqMembers (ID g) member_options]
          p w [] [] [] c [] [] _ [] eq_refl (collected_nil d) eq_refl eq_refl)
          as H
    end.
    simpl in H. by rewrite app_nil_r in H.
Qed.

Lemma scrape_group_outcome (p : Pusher) (g : GroupConfig) (w : World) :
  holds_defaults config d w →
  loop_outcome d (requests_of_group g) p w (scrape_group git config p g w).
Proof.
  intros Hw. rewrite scrape_group_blocks. unfold requests_of_group.
  apply bind_loop_outcome; [by apply project_block_outcome|].
  intros p1 w1 Hm. apply member_block_outcome.
  eapply holds_defaults_outcome; [done|]. rewrite <- Hm.
  by apply project_block_outcome.
Qed.

Lemma groups_loop_outcome (gs : list GroupConfig) (p : Pusher) (w : World) :
  holds_defaults config d w →
  loop_outcome d (plan gs) p w
    (for_range_with gs (scrape_group git config) p w).
Proof.
  revert p w. induction gs as [|g gs IH]; intros p w Hw.
  - apply loop_outcome_empty.
  - change (plan (g :: gs)) with (requests_of_group g ++ plan gs).
    change (for_range_with (g :: gs) (scrape_group git config) p)
      with (scrape_group git config p g ≫=
            for_range_with gs (scrape_group git config)).
    apply bind_loop_outcome; [by apply scrape_group_outcome|].
    intros p1 w1 Hm. apply IH.
    eapply holds_defaults_outcome; [done|]. rewrite <- Hm.
    by apply scrape_group_outcome.
Qed.
End Group.

Lemma scrape_spec (env : Env) (config : Config) (d : Labels)
    (accessToken pushGatewayURL : string) (w : World) :
  holds_defaults config d w →
  scrape_outcome d (Groups config) pushGatewayURL w
    (scrape env config accessToken pushGatewayURL w).
Proof.
  intros Hw. unfold scrape.
  destruct (gitlab_NewClient env accessToken) as [git|err].
  - rewrite bind_unfold.
    pose proof (groups_loop_outcome git config d (Groups config)
                  (push_New pushGatewayURL "gitlab_scrape") w Hw) as Hloop.
    destruct Hloop as [h' out cs batch Hc|h' out cs0 c batch done r rest Hp Hc Hr Hf].
    + rewrite bind_unfold. unfold Pusher_Push at 1.
      cbn [heap stdout calls pusher_url pusher_job pusher_collectors push_New app].
      destruct (gateway_push env _ _ _ _) as [err|].
      * rewrite bind_unfold. unfold fmt_Print at 1.
        cbn [heap stdout calls]. rewrite <- !app_assoc.
        by apply scrape_push_failed.
      * rewrite <- !app_assoc. by apply scrape_pushed.
    + by eapply scrape_collector_failed.
  - rewrite bind_unfold. unfold fmt_Print at 1.
    pose proof (scrape_no_client d (Groups config) pushGatewayURL w [] err)
      as H.
    by rewrite app_nil_r in H.
Qed.

Lemma scrape_outcome_rebase (d : Labels) (gs : list GroupConfig) (url : string)
    (w : World) (a : list Labels) (o : Result unit * World) :
  scrape_outcome d gs url (mkWorld (heap w ++ a) (stdout w) (calls w)) o →
  scrape_outcome d gs url w o.
Proof.
  intros [h' err|h' out cs batch Hc|h' out cs batch err Hc
          |h' out cs0 c batch done r rest Hp Hc Hr Hf];
    cbn [heap stdout calls]; rewrite <- (app_assoc (heap w)).
  - by apply scrape_no_client.
  - by apply scrape_pushed.
  - by apply scrape_push_failed.
  - by eapply scrape_collector_failed.
Qed.

Lemma getRequiredValue_eq (env : Env) (key envVar errMsg : string) (w : World) :
  getRequiredValue env key envVar errMsg w =
  if decide (viper_GetString env key envVar = EmptyString)
  then (Exited 1, mkWorld (heap w) (stdout w ++ [errMsg +:+ nl]) (calls w))
  else (Done (viper_GetString env key envVar), w).
Proof.
  unfold getRequiredValue. rewrite bind_unfold.
  destruct (decide _); reflexivity.
Qed.

Lemma scrapeCmd_Run_spec (env : Env) (configFile : string) (w : World) :
  run_outcome env configFile w (scrapeCmd_Run env configFile w).
Proof.
  unfold scrapeCmd_Run. rewrite bind_unfold.
  destruct (viper_ReadInConfig env configFile) as [err|] eqn:Hread.
  { by apply run_read_failed. }
  rewrite mret_unfold.
  rewrite bind_unfold, getRequiredValue_eq.
  destruct (decide _) as [Htok|Htok]; [by apply run_token_missing|].
  rewrite bind_unfold, getRequiredValue_eq.
  destruct (decide _) as [Hurl|Hurl]; [by apply run_url_missing|].
  rewrite bind_unfold. unfold viper_Unmarshal.
  destruct (viper_decode env) as [[m|] gs|err] eqn:Hdec.
  - rewrite bind_unfold. unfold new_map at 1.
    rewrite mret_unfold.
    eapply run_scraped; [done..|]. simpl.
    apply (scrape_outcome_rebase _ _ _ w [m]).
    apply (scrape_spec env (mkConfig (Some (length (heap w))) gs) m).
    split; simpl.
    + rewrite length_app. simpl. lia.
    + by rewrite list_lookup_middle.
  - rewrite mret_unfold.
    eapply run_scraped; [done..|]. simpl.
    by apply (scrape_spec env (mkConfig None gs) ∅).
  - rewrite mret_unfold.
    by apply run_unmarshal_failed.
Qed.

Lemma merged_labels_eq (labelSets : list mapref) (w : World) :
  merged_labels labelSets w = merge_sets (read_map (heap w) <$> labelSets).
Proof.
  unfold merged_labels. rewrite mergeLabels_spec. simpl.
  by rewrite list_lookup_middle.
Qed.

Lemma gauge_of_call_Some (d : Labels) (c : Call) (g : Gauge) :
  gauge_of_call d c = Some g →
  is_push c = false ∧ call_failed c = false ∧
  ∃ gid : string, ConstLabels g = group_labels d gid.
Proof.
  destruct c as [gid opt [items resp|err]|gid opt [items resp|err]|u j b e];
    cbn [gauge_of_call]; intros Hg; try discriminate Hg;
    injection Hg as <-; (split; [done|]; split; [done|]); by exists gid.
Qed.

Lemma collected_calls (d : Labels) (reqs : list Request) (cs : list Call)
    (batch : list Gauge) :
  collected d reqs cs batch →
  Forall (λ c, is_push c = false ∧ call_failed c = false) cs.
Proof.
  intros [_ H]. induction H as [|c g cs batch Hc _ IH]; constructor; [|done].
  apply gauge_of_call_Some in Hc as (Hpush & Hfailed & _). by split.
Qed.

Lemma collected_labels (d : Labels) (reqs : list Request) (cs : list Call)
    (batch : list Gauge) :
  collected d reqs cs batch →
  Forall (λ g, ∃ gid : string, ConstLabels g = group_labels d gid) batch.
Proof.
  intros [_ H]. induction H as [|c g cs batch Hc _ IH]; constructor; [|done].
  by apply gauge_of_call_Some in Hc as (_ & _ & Hlabels).
Qed.

Lemma scrape_outcome_heap (d : Labels) (gs : list GroupConfig) (url : string)
    (w : World) (o : Result unit * World) :
  scrape_outcome d gs url w o →
  ∃ h' : list Labels, heap (snd o) = heap w ++ h'.
Proof. intros [h' ?|h' ? ? ? ?|h' ? ? ? ? ?|h' ? ? ? ? ? ? ? ? ? ? ?]; by exists h'. Qed.

(** The samples of every push among the new calls carry the defaults [d]. *)
Lemma scrape_outcome_pushed_labels (d : Labels) (gs : list GroupConfig)
    (url : string) (w : World) (o : Result unit * World) :
  scrape_outcome d gs url w o →
  ∃ cs : list Call,
    calls (snd o) = calls w ++ cs ∧
    ∀ (u j : string) (batch : list Gauge) (e : option string) (g : Gauge),
      CallPush u j batch e ∈ cs → g ∈ batch →
      ∃ gid : string, ConstLabels g = group_labels d gid.
Proof.
  assert (Hnot : ∀ reqs cs batch u j b e,
            collected d reqs cs batch → CallPush u j b e ∉ cs).
  { intros reqs cs batch u j b e Hc Hin.
    apply collected_calls in Hc. rewrite Forall_forall in Hc.
    by destruct (Hc _ Hin) as [[=] _]. }
  intros [h' err|h' out cs batch Hc|h' out cs batch err Hc
          |h' out cs0 c batch done r rest Hp Hc Hr Hf]; simpl.
  - exists []. split; [by rewrite app_nil_r|]. by intros ????? ?%elem_of_nil.
  - eexists. split; [done|]. intros u j b e g Hin Hg.
    apply elem_of_app in Hin as [Hin|Hin]; [by eapply Hnot in Hin|].
    apply list_elem_of_singleton in Hin. injection Hin as -> -> -> ->.
    apply collected_labels in Hc. rewrite Forall_forall in Hc. by apply Hc.
  - eexists. split; [done|]. intros u j b e g Hin Hg.
    apply elem_of_app in Hin as [Hin|Hin]; [by eapply Hnot in Hin|].
    apply list_elem_of_singleton in Hin. injection Hin as -> -> -> ->.
    apply collected_labels in Hc. rewrite Forall_forall in Hc. by apply Hc.
  - eexists. split; [done|]. intros u j b e g Hin Hg.
    apply elem_of_app in Hin as [Hin|Hin]; [by eapply Hnot in Hin|].
    apply list_elem_of_singleton in Hin. subst c. done.
Qed.

Lemma bind_not_panicked {A B} (m : M A) (k : A → M B) (w : World) :
  fst (m w) ≠ Panicked →
  (∀ (a : A) (w' : World), fst (k a w') ≠ Panicked) →
  fst ((m ≫= k) w) ≠ Panicked.
Proof.
  intros Hm Hk. rewrite bind_unfold.
  destruct (m w) as [[a|code|] w']; [apply Hk|done|done].
Qed.

Lemma for_range_with_not_panicked {A S} (body : S → A → M S) (xs : list A) :
  (∀ (s : S) (x : A) (w : World), fst (body s x w) ≠ Panicked) →
  ∀ (s : S) (w : World), fst (for_range_with xs body s w) ≠ Panicked.
Proof.
  intros Hbody. induction xs as [|x xs IH]; intros s w; [done|].
  by apply bind_not_panicked.
Qed.

Lemma emit_not_panicked (config : Config) (p : Pusher)
    (gid name help line : string) (count : Z) (w : World) :
  fst (emit config p gid name help line count w) ≠ Panicked.
Proof.
  unfold emit.
  apply bind_not_panicked; [done|]. intros _ w1.
  apply bind_not_panicked; [done|]. intros groupLabels w2.
  apply bind_not_panicked; [by rewrite mergeLabels_spec|]. intros labels w3.
  by apply bind_not_panicked.
Qed.

Lemma scrape_group_not_panicked (git : Client) (config : Config) (p : Pusher)
    (g : GroupConfig) (w : World) :
  fst (scrape_group git config p g w) ≠ Panicked.
Proof.
  rewrite scrape_group_blocks. apply bind_not_panicked.
  - unfold project_block. destruct (ProjectCount g) as [pc|] eqn:Hpc; [|done].
    apply bind_not_panicked; [|intros; apply emit_not_panicked].
    rewrite (getProjectCount_eq _ _ pc) by done. cbv zeta.
    by destruct (Groups_ListGroupProjects _ _ _ _).
  - intros p1 w1. unfold member_block.
    destruct (MemberCount g) as [mc|]; [|done].
    apply bind_not_panicked; [|intros; apply emit_not_panicked].
    rewrite getGroupMembersCount_eq. cbv zeta.
    by destruct (Groups_ListGroupMembers _ _ _ _).
Qed.

Lemma scrape_not_panicked (env : Env) (config : Config)
    (accessToken pushGatewayURL : string) (w : World) :
  fst (scrape env config accessToken pushGatewayURL w) ≠ Panicked.
Proof.
  unfold scrape. destruct (gitlab_NewClient env accessToken) as [git|err].
  - apply bind_not_panicked.
    { apply for_range_with_not_panicked. intros. apply scrape_group_not_panicked. }
    intros p1 w1. apply bind_not_panicked; [done|]. intros [err|] w2; [|done].
    by apply bind_not_panicked.
  - by apply bind_not_panicked.
Qed.

Lemma group_labels_group_id (d : Labels) (gid : string) :
  group_labels d gid !! "group_id" = Some gid.
Proof.
  unfold group_labels. apply lookup_union_Some_l, lookup_singleton_eq.
Qed.

Lemma collected_series (d : Labels) (reqs : list Request) (cs : list Call)
    (batch : list Gauge) :
  collected d reqs cs batch → series_of <$> batch = request_series <$> reqs.
Proof.
  intros [Hr Hb]. revert batch Hb.
  induction Hr as [|c r cs reqs Hc _ IH]; intros batch Hb.
  - by apply Forall2_nil_inv_l in Hb as ->.
  - apply Forall2_cons_inv_l in Hb as (g & batch' & Hg & Hb & ->).
    rewrite !fmap_cons, (IH _ Hb). f_equal.
    destruct c as [gid opt [items resp|err]|gid opt [items resp|err]|u j b e];
      cbn [gauge_of_call call_request] in Hg, Hc;
      try discriminate Hg; injection Hg as <-; injection Hc as <-;
      unfold series_of;
      cbn [Name ConstLabels project_gauge member_gauge request_series];
      by rewrite group_labels_group_id.
Qed.

Lemma plan_series (gs : list GroupConfig) :
  request_series <$> plan gs = expected_series gs.
Proof.
  unfold plan, expected_series. induction gs as [|g gs IH]; [done|].
  rewrite !fmap_cons, !concat_cons, fmap_app, IH. f_equal.
  unfold requests_of_group.
  by destruct (ProjectCount g), (MemberCount g).
Qed.

Lemma scrape_outcome_exit_or_done (d : Labels) (gs : list GroupConfig)
    (url : string) (w : World) (o : Result unit * World) :
  scrape_outcome d gs url w o →
  fst o = Done tt ∨
  (fst o = Exited 1 ∧
   ∃ (out : list string) (line : string),
     stdout (snd o) = stdout w ++ out ++ [line]).
Proof.
  intros [h' err|h' out cs batch Hc|h' out cs batch err Hc
          |h' out cs0 c batch done r rest Hp Hc Hr Hf]; simpl.
  - right. split; [done|]. by exists [], (client_failure_line err).
  - by left.
  - right. split; [done|]. by exists out, (push_failure_line err).
  - right. split; [done|]. by exists out, (failure_line c).
Qed.

Lemma scrape_outcome_failed_call (d : Labels) (gs : list GroupConfig)
    (url : string) (w : World) (o : Result unit * World) (cs : list Call)
    (c : Call) :
  scrape_outcome d gs url w o →
  calls (snd o) = calls w ++ cs → c ∈ cs →
  (call_failed c = true →
   fst o = Exited 1 ∧ last (stdout (snd o)) = Some (failure_line c)) ∧
  (∀ (u j : string) (b : list Gauge) (err : string),
     c = CallPush u j b (Some err) →
     fst o = Exited 1 ∧ last (stdout (snd o)) = Some (push_failure_line err)).
Proof.
  assert (Hok : ∀ reqs cs1 batch c1,
            collected d reqs cs1 batch → c1 ∈ cs1 →
            call_failed c1 = false ∧ is_push c1 = false).
  { intros reqs cs1 batch c1 Hc Hin. apply collected_calls in Hc.
    rewrite Forall_forall in Hc. by destruct (Hc _ Hin). }
  intros [h' err|h' out cs1 batch Hc|h' out cs1 batch err Hc
          |h' out cs0 c0 batch done r rest Hp Hc Hr Hf];
    cbn [fst snd calls stdout]; intros Hcalls Hin.
  - rewrite <- (app_nil_r (calls w)) in Hcalls at 1.
    apply app_inv_head in Hcalls as <-. by apply elem_of_nil in Hin.
  - apply app_inv_head in Hcalls as <-.
    apply elem_of_app in Hin as [Hin|Hin].
    + destruct (Hok _ _ _ _ Hc Hin) as [Hf Hp]. split.
      * intros Hfailed. by rewrite Hf in Hfailed.
      * intros u j b err ->. discriminate Hp.
    + apply list_elem_of_singleton in Hin. subst c. split; [done|].
      intros u j b err [=].
  - apply app_inv_head in Hcalls as <-.
    apply elem_of_app in Hin as [Hin|Hin].
    + destruct (Hok _ _ _ _ Hc Hin) as [Hf Hp]. split.
      * intros Hfailed. by rewrite Hf in Hfailed.
      * intros u j b err' ->. discriminate Hp.
    + apply list_elem_of_singleton in Hin. subst c. split; [done|].
      intros u j b err' [= _ _ _ <-]. split; [done|].
      by rewrite !app_assoc, last_snoc.
  - apply app_inv_head in Hcalls as <-.
    apply elem_of_app in Hin as [Hin|Hin].
    + destruct (Hok _ _ _ _ Hc Hin) as [Hf' Hp']. split.
      * intros Hfailed. by rewrite Hf' in Hfailed.
      * intros u j b err ->. discriminate Hp'.
    + apply list_elem_of_singleton in Hin. subst c0. split.
      * intros _. split; [done|]. by rewrite !app_assoc, last_snoc.
      * intros u j b err ->. discriminate Hr.
Qed.

(** * Scenarios evaluated *)

(** A group with neither field: no call, no sample, no output. *)
Example noop_group :
  scrape_group Scenario.totals_client
    (mkConfig (Some 0%nat) [Scenario.no_specs "G9"])
    (push_New "http://localhost:9091" "gitlab_scrape")
    (Scenario.no_specs "G9") Scenario.team_store =
  (Done (push_New "http://localhost:9091" "gitlab_scrape"), Scenario.team_store).
Proof. reflexivity. Qed.

(** Three groups, the project call of the second refused: the run stops
    there, before the members of the second group, the third group and
    the push. *)
Example fatal_short_circuit :
  let o := scrapeCmd_Run Scenario.failing_env "config.json"
             Scenario.empty_world in
  fst o = Exited 1 ∧
  calls (snd o) =
    [CallListGroupProjects "G1" (project_options false)
       (ApiOk [mkProject 1] (mkResponse 4));
     CallListGroupMembers "G1" member_options
       (ApiOk [mkGroupMember 1] (mkResponse 6));
     CallListGroupProjects "G2" (project_options false)
       (ApiErr "401 Unauthorized")] ∧
  last (stdout (snd o)) =
    Some ("Failed to list projects for group G2: 401 Unauthorized" +:+ nl).
Proof. by vm_compute. Qed.

Example subgroup_toggle :
  fst (getProjectCount Scenario.toggle_client
         (Scenario.with_subgroups "G1" true) Scenario.empty_world) = Done 25 ∧
  fst (getProjectCount Scenario.toggle_client
         (Scenario.projects_only "G1") Scenario.empty_world) = Done 10.
Proof. by split. Qed.

(** A refused push: the samples are collected, then the run exits. *)
Example push_refused :
  let env :=
    mkEnv (λ _, None) (λ _ _, "set")
      (DecodedConfig None [Scenario.members_only "G2"])
      (λ _, inl Scenario.totals_client)
      (λ _ _ _ _, Some "502 Bad Gateway") in
  let o := scrapeCmd_Run env "config.json" Scenario.empty_world in
  fst o = Exited 1 ∧
  calls (snd o) =
    [CallListGroupMembers "G2" member_options
       (ApiOk [mkGroupMember 5] (mkResponse 2));
     CallPush "set" "gitlab_scrape"
       [mkGauge "gitlab_group_members_count"
          "Number of members in the GitLab group" {[ "group_id" := "G2" ]} 2]
       (Some "502 Bad Gateway")] ∧
  last (stdout (snd o)) =
    Some ("Failed to push metrics to Push Gateway: 502 Bad Gateway" +:+ nl).
Proof. by vm_compute. Qed.

(** Beyond 2^53 a count is rounded on its way into the gauge. *)
Example float64_of_int_rounds :
  float64_of_int 7 = 7 ∧ float64_of_int (2 ^ 53) = 2 ^ 53 ∧
  float64_of_int (2 ^ 53 + 1) = 2 ^ 53 ∧
  float64_of_int (2 ^ 53 + 3) = 2 ^ 53 + 4.
Proof. by vm_compute. Qed.

(** * The claims *)

(** C3. [mergeLabels] always returns a map, and a key of that map holds
    the value of the last input set that has the key; a key is absent
    exactly when no input set has it. Merging [{env: prod}] and then
    [{group_id: 42, env: staging}] gives [{env: staging, group_id: 42}].
    An input set that is empty, the nil map included, can be dropped from
    the sequence without changing the result. *)
Theorem mergeLabels_last_write_wins :
  (∀ (labelSets : list mapref) (w : World),
     ∃ (r : mapref) (w' : World), mergeLabels labelSets w = (Done r, w')) ∧
  (∀ (labelSets : list mapref) (w : World) (k v : string),
     merged_labels labelSets w !! k = Some v ↔
     ∃ (i : nat) (r : mapref),
       labelSets !! i = Some r ∧ read_map (heap w) r !! k = Some v ∧
       ∀ (j : nat) (r' : mapref),
         (i < j)%nat → labelSets !! j = Some r' →
         read_map (heap w) r' !! k = None) ∧
  (∀ (labelSets : list mapref) (w : World) (k : string),
     merged_labels labelSets w !! k = None ↔
     ∀ r : mapref, r ∈ labelSets → read_map (heap w) r !! k = None) ∧
  merged_labels [Some 0%nat; Some 1%nat]
    (mkWorld [ {[ "env" := "prod" ]};
               <[ "group_id" := "42" ]> {[ "env" := "staging" ]} ] [] [])
  = <[ "env" := "staging" ]> {[ "group_id" := "42" ]} ∧
  (∀ (before after : list mapref) (r : mapref) (w : World),
     read_map (heap w) r = ∅ →
     merged_labels (before ++ r :: after) w = merged_labels (before ++ after) w).
Proof.
  split; [|split; [|split; [|split]]].
  - intros labelSets w. rewrite mergeLabels_spec. eauto.
  - intros labelSets w k v. rewrite merged_labels_eq, merge_sets_lookup_Some.
    split.
    + intros (i & s & Hi & Hk & Hlater).
      apply list_lookup_fmap_Some in Hi as (r & -> & Hr).
      exists i, r. split; [done|]. split; [done|].
      intros j r' Hj Hr'. apply (Hlater j); [done|].
      apply list_lookup_fmap_Some. eauto.
    + intros (i & r & Hi & Hk & Hlater).
      exists i, (read_map (heap w) r). split.
      { apply list_lookup_fmap_Some. eauto. }
      split; [done|]. intros j s' Hj Hs'.
      apply list_lookup_fmap_Some in Hs' as (r' & -> & Hr'). eauto.
  - intros labelSets w k. rewrite merged_labels_eq, merge_sets_lookup_None.
    split.
    + intros H r Hr. apply H, list_elem_of_fmap. eauto.
    + intros H s Hs. apply list_elem_of_fmap in Hs as (r & -> & Hr). eauto.
  - by vm_compute.
  - intros before after r w Hr.
    rewrite !merged_labels_eq, !fmap_app. simpl.
    by rewrite Hr, merge_sets_empty_set.
Qed.

Lemma mergeLabels_last_write_wins_witness :
  read_map (heap Scenario.team_store) None = ∅ ∧
  merged_labels ([Some 0%nat] ++ None :: [Some 0%nat]) Scenario.team_store =
  merged_labels ([Some 0%nat] ++ [Some 0%nat]) Scenario.team_store.
Proof.
  split; [reflexivity|].
  apply (proj2 (proj2 (proj2 (proj2 mergeLabels_last_write_wins)))).
  reflexivity.
Defined.

(** C10. [mergeLabels] returns a map at an address that was not in use and
    leaves the store as it was below that address, so no map that existed
    before the call, an input in particular, is changed, and the result is
    none of them. The default labels of the configuration read the same
    after a group is processed and after the whole of [scrape], and every
    sample that is pushed carries the defaults as they were at the start,
    under the group's [group_id]. *)
Theorem mergeLabels_keeps_inputs (env : Env) (config : Config)
    (accessToken pushGatewayURL : string) (w : World)
    (labelSets : list mapref) :
  valid_ref (heap w) (DefaultLabels config) →
  (∃ m : Labels,
     mergeLabels labelSets w =
     (Done (Some (length (heap w))),
      mkWorld (heap w ++ [m]) (stdout w) (calls w))) ∧
  (∀ r : mapref,
     valid_ref (heap w) r →
     read_map (heap (snd (mergeLabels labelSets w))) r = read_map (heap w) r ∧
     fst (mergeLabels labelSets w) ≠ Done r) ∧
  (∀ (git : Client) (p : Pusher) (g : GroupConfig),
     read_map (heap (snd (scrape_group git config p g w)))
       (DefaultLabels config) =
     read_map (heap w) (DefaultLabels config)) ∧
  read_map (heap (snd (scrape env config accessToken pushGatewayURL w)))
    (DefaultLabels config) =
  read_map (heap w) (DefaultLabels config) ∧
  ∃ cs : list Call,
    calls (snd (scrape env config accessToken pushGatewayURL w)) =
    calls w ++ cs ∧
    ∀ (u j : string) (batch : list Gauge) (e : option string) (g : Gauge),
      CallPush u j batch e ∈ cs → g ∈ batch →
      ∃ gid : string,
        ConstLabels g =
        {[ "group_id" := gid ]} ∪ read_map (heap w) (DefaultLabels config).
Proof.
  intros Hvalid.
  assert (Hw : holds_defaults config (read_map (heap w) (DefaultLabels config)) w)
    by done.
  split; [|split; [|split; [|split]]].
  - rewrite mergeLabels_spec. eauto.
  - intros r Hr. rewrite mergeLabels_spec. simpl. split.
    + by apply read_map_app_valid.
    + intros [= <-]. simpl in Hr. lia.
  - intros git p g.
    destruct (loop_outcome_heap _ _ _ _ _
                (scrape_group_outcome git config _ p g w Hw)) as [h' ->].
    by apply read_map_app_valid.
  - destruct (scrape_outcome_heap _ _ _ _ _
                (scrape_spec env config _ accessToken pushGatewayURL w Hw))
      as [h' ->].
    by apply read_map_app_valid.
  - apply (scrape_outcome_pushed_labels _ _ _ _ _
             (scrape_spec env config _ accessToken pushGatewayURL w Hw)).
Qed.

Lemma mergeLabels_keeps_inputs_witness :
  read_map
    (heap (snd (scrape Scenario.end_to_end_env
                  (mkConfig (Some 0%nat) Scenario.two_groups)
                  "glpat-token" "http://localhost:9091" Scenario.team_store)))
    (Some 0%nat) =
  read_map (heap Scenario.team_store) (Some 0%nat).
Proof.
  refine (proj1 (proj2 (proj2 (proj2
    (mergeLabels_keeps_inputs Scenario.end_to_end_env
       (mkConfig (Some 0%nat) Scenario.two_groups)
       "glpat-token" "http://localhost:9091" Scenario.team_store
       [Some 0%nat; None] _))))).
  simpl. lia.
Defined.

(** C4. The project-count collector asks with [include_subgroups] false
    when the option is absent and with the value of the option when it is
    present; against a client that reports 10 without sub-groups and 25
    with them it returns 10 for an absent option, 25 for true and 10 for
    false. *)
Theorem getProjectCount_include_subgroups :
  (∀ (git : Client) (gid : string) (mc : option MemberCountConfig) (w : World),
     calls (snd (getProjectCount git
                   (mkGroupConfig gid (Some (mkProjectCountConfig None)) mc) w)) =
     calls w ++
     [CallListGroupProjects gid
        {| lgp_IncludeSubGroups := Some false;
           lgp_ListOptions := {| Page := 1; PerPage := 1 |};
           lgp_Simple := Some true |}
        (Groups_ListGroupProjects git (calls w) gid (project_options false))]) ∧
  (∀ (git : Client) (gid : string) (mc : option MemberCountConfig) (b : bool)
     (w : World),
     calls (snd (getProjectCount git
                   (mkGroupConfig gid (Some (mkProjectCountConfig (Some b))) mc)
                   w)) =
     calls w ++
     [CallListGroupProjects gid
        {| lgp_IncludeSubGroups := Some b;
           lgp_ListOptions := {| Page := 1; PerPage := 1 |};
           lgp_Simple := Some true |}
        (Groups_ListGroupProjects git (calls w) gid (project_options b))]) ∧
  (∀ (gid : string) (mc : option MemberCountConfig) (w : World),
     fst (getProjectCount Scenario.toggle_client
            (mkGroupConfig gid (Some (mkProjectCountConfig None)) mc) w) =
     Done 10 ∧
     fst (getProjectCount Scenario.toggle_client
            (mkGroupConfig gid (Some (mkProjectCountConfig (Some true))) mc) w) =
     Done 25 ∧
     fst (getProjectCount Scenario.toggle_client
            (mkGroupConfig gid (Some (mkProjectCountConfig (Some false))) mc) w) =
     Done 10).
Proof.
  split; [|split].
  - intros git gid mc w.
    rewrite (getProjectCount_eq _ _ (mkProjectCountConfig None)) by done.
    cbn [ID IncludeSubGroups default]. cbv zeta.
    by destruct (Groups_ListGroupProjects _ _ _ _).
  - intros git gid mc b w.
    rewrite (getProjectCount_eq _ _ (mkProjectCountConfig (Some b))) by done.
    cbn [ID IncludeSubGroups default]. cbv zeta.
    by destruct (Groups_ListGroupProjects _ _ _ _).
  - intros gid mc w. by repeat split.
Qed.

(** C5. Each collector, on its own and for every group: when the client
    answers the collector's request, the collector returns the total-item
    count of the response, whatever records the answer holds and however
    many, and it has made that one call, for one item of page one. The
    project collector needs only its own sub-configuration, the member
    collector needs nothing of the group but its ID; neither depends on
    the other's call. For a count of at most 2^53 the value set on the
    gauge is that count. *)
Theorem collectors_return_total_items :
  (∀ (git : Client) (g : GroupConfig) (pc : ProjectCountConfig) (w : World)
     (projects : list Project) (resp : Response),
     ProjectCount g = Some pc →
     Groups_ListGroupProjects git (calls w) (ID g)
       (project_options (default false (IncludeSubGroups pc))) =
       ApiOk projects resp →
     getProjectCount git g w =
       (Done (TotalItems resp),
        mkWorld (heap w) (stdout w)
          (calls w ++
           [CallListGroupProjects (ID g)
              {| lgp_IncludeSubGroups :=
                   Some (default false (IncludeSubGroups pc));
                 lgp_ListOptions := {| Page := 1; PerPage := 1 |};
                 lgp_Simple := Some true |}
              (ApiOk projects resp)]))) ∧
  (∀ (git : Client) (g : GroupConfig) (w : World)
     (members : list GroupMember) (resp : Response),
     Groups_ListGroupMembers git (calls w) (ID g) member_options =
       ApiOk members resp →
     getGroupMembersCount git g w =
       (Done (TotalItems resp),
        mkWorld (heap w) (stdout w)
          (calls w ++
           [CallListGroupMembers (ID g)
              {| lgm_ListOptions := {| Page := 1; PerPage := 1 |} |}
              (ApiOk members resp)]))) ∧
  (∀ (d : Labels) (gid : string) (n : Z),
     0 ≤ n ≤ 2 ^ 53 →
     Value (project_gauge d gid n) = n ∧ Value (member_gauge d gid n) = n).
Proof.
  split; [|split].
  - intros git g pc w projects resp Hpc Hres.
    rewrite (getProjectCount_eq _ _ pc) by done. cbv zeta. by rewrite Hres.
  - intros git g w members resp Hres.
    rewrite getGroupMembersCount_eq. cbv zeta. by rewrite Hres.
  - intros d gid n Hn. cbn [Value project_gauge member_gauge].
    assert (float64_of_int n = n) as ->; [|done].
    unfold float64_of_int.
    destruct (decide (n = 0)) as [->|Hne]; [done|].
    assert (Z.log2 (Z.abs n) ≤ 53).
    { rewrite Z.abs_eq by lia.
      transitivity (Z.log2 (2 ^ 53)); [apply Z.log2_le_mono; lia|].
      by rewrite Z.log2_pow2. }
    destruct (decide (n = 2 ^ 53)) as [->|Hlt]; [by vm_compute|].
    assert (Z.log2 (Z.abs n) < 53).
    { rewrite Z.abs_eq by lia. apply Z.log2_lt_pow2; lia. }
    destruct (Z.leb_spec (Z.log2 (Z.abs n) - 52) 0); [done|lia].
Qed.

(** The project collector on a group whose member call is refused, the
    member collector on a group without [project_count]; each answer holds
    one record and reports another total. *)
Lemma collectors_return_total_items_witness :
  getProjectCount Scenario.totals_client (Scenario.both_specs "G1")
    Scenario.empty_world =
    (Done 3,
     mkWorld [] []
       [CallListGroupProjects "G1" (project_options false)
          (ApiOk [mkProject 11] (mkResponse 3))]) ∧
  getGroupMembersCount Scenario.totals_client (Scenario.members_only "G2")
    Scenario.empty_world =
    (Done 2,
     mkWorld [] []
       [CallListGroupMembers "G2" member_options
          (ApiOk [mkGroupMember 5] (mkResponse 2))]) ∧
  Value (project_gauge ∅ "G1" 3) = 3 ∧ Value (member_gauge ∅ "G1" 3) = 3.
Proof.
  split; [|split].
  - exact (proj1 collectors_return_total_items Scenario.totals_client
             (Scenario.both_specs "G1") (mkProjectCountConfig None)
             Scenario.empty_world [mkProject 11] (mkResponse 3)
             eq_refl eq_refl).
  - exact (proj1 (proj2 collectors_return_total_items) Scenario.totals_client
             (Scenario.members_only "G2") Scenario.empty_world
             [mkGroupMember 5] (mkResponse 2) eq_refl).
  - apply (proj2 (proj2 collectors_return_total_items) ∅ "G1" 3). lia.
Defined.

(** C7, as the specification words it, fails: a collector whose call is
    refused does not return to its caller, with a failure value or any
    other. *)
Lemma collector_failure_is_not_returned :
  ¬ (∃ (v : Z) (w' : World),
       getProjectCount Scenario.failing_client (Scenario.both_specs "G2")
         Scenario.empty_world = (Done v, w')) ∧
  ¬ (∃ (v : Z) (w' : World),
       getGroupMembersCount Scenario.failing_client (Scenario.both_specs "G2")
         Scenario.empty_world = (Done v, w')) ∧
  ¬ (∃ (p' : Pusher) (w' : World),
       scrape_group Scenario.failing_client
         (mkConfig None [Scenario.both_specs "G2"])
         (push_New "http://localhost:9091" "gitlab_scrape")
         (Scenario.both_specs "G2") Scenario.empty_world = (Done p', w')).
Proof.
  split; [|split]; intros (v & w' & H); vm_compute in H; discriminate H.
Qed.

(** C7, amended. When the call of a collector fails, the collector itself
    prints a line that names the group and the error and ends the process
    with exit status 1, after that one call: nothing is returned to the
    caller, whatever the caller would have done next does not run, and the
    call is not made again. *)
Theorem collector_failure_exits :
  (∀ (git : Client) (g : GroupConfig) (pc : ProjectCountConfig) (w : World)
     (err : string),
     ProjectCount g = Some pc →
     Groups_ListGroupProjects git (calls w) (ID g)
       (project_options (default false (IncludeSubGroups pc))) = ApiErr err →
     ∀ (B : Type) (k : Z → M B),
       getProjectCount git g w =
         (Exited 1,
          mkWorld (heap w)
            (stdout w ++
             ["Failed to list projects for group " +:+ ID g +:+ ": " +:+
              err +:+ nl])
            (calls w ++
             [CallListGroupProjects (ID g)
                (project_options (default false (IncludeSubGroups pc)))
                (ApiErr err)])) ∧
       (getProjectCount git g ≫= k) w =
         (Exited 1, snd (getProjectCount git g w))) ∧
  (∀ (git : Client) (g : GroupConfig) (w : World) (err : string),
     Groups_ListGroupMembers git (calls w) (ID g) member_options = ApiErr err →
     ∀ (B : Type) (k : Z → M B),
       getGroupMembersCount git g w =
         (Exited 1,
          mkWorld (heap w)
            (stdout w ++
             ["Failed to list members for group " +:+ ID g +:+ ": " +:+
              err +:+ nl])
            (calls w ++
             [CallListGroupMembers (ID g) member_options (ApiErr err)])) ∧
       (getGroupMembersCount git g ≫= k) w =
         (Exited 1, snd (getGroupMembersCount git g w))).
Proof.
  split.
  - intros git g pc w err Hpc Hres B k.
    rewrite bind_unfold, (getProjectCount_eq _ _ pc) by done. cbv zeta.
    by rewrite Hres.
  - intros git g w err Hres B k.
    rewrite bind_unfold, getGroupMembersCount_eq. cbv zeta.
    by rewrite Hres.
Qed.

Lemma collector_failure_exits_witness :
  getProjectCount Scenario.failing_client (Scenario.both_specs "G2")
    Scenario.empty_world =
    (Exited 1,
     mkWorld []
       ["Failed to list projects for group G2: 401 Unauthorized" +:+ nl]
       [CallListGroupProjects "G2" (project_options false)
          (ApiErr "401 Unauthorized")]) ∧
  getGroupMembersCount Scenario.failing_client (Scenario.both_specs "G2")
    Scenario.empty_world =
    (Exited 1,
     mkWorld []
       ["Failed to list members for group G2: 401 Unauthorized" +:+ nl]
       [CallListGroupMembers "G2" member_options (ApiErr "401 Unauthorized")]).
Proof.
  split.
  - exact (proj1 (proj1 collector_failure_exits Scenario.failing_client
                    (Scenario.both_specs "G2") (mkProjectCountConfig None)
                    Scenario.empty_world "401 Unauthorized" eq_refl eq_refl
                    unit (λ _, mret tt))).
  - exact (proj1 (proj2 collector_failure_exits Scenario.failing_client
                    (Scenario.both_specs "G2") Scenario.empty_world
                    "401 Unauthorized" eq_refl unit (λ _, mret tt))).
Defined.

(** C9. [getProjectCount] reads through [group.ProjectCount] unchecked: on
    a group whose [ProjectCount] is nil it panics, before any call. The
    loop of [scrape] calls it only under [group.ProjectCount != nil], and
    no run of the body of the loop, of [scrape] or of the command panics,
    whatever the configuration, the client and the store. *)
Theorem scrape_never_dereferences_nil :
  (∀ (git : Client) (gid : string) (mc : option MemberCountConfig) (w : World),
     getProjectCount git (mkGroupConfig gid None mc) w = (Panicked, w)) ∧
  (∀ (git : Client) (config : Config) (p : Pusher) (g : GroupConfig)
     (w : World),
     fst (scrape_group git config p g w) ≠ Panicked) ∧
  (∀ (env : Env) (config : Config) (accessToken pushGatewayURL : string)
     (w : World),
     fst (scrape env config accessToken pushGatewayURL w) ≠ Panicked) ∧
  (∀ (env : Env) (configFile : string) (w : World),
     fst (scrapeCmd_Run env configFile w) ≠ Panicked).
Proof.
  split; [|split; [|split]].
  - done.
  - apply scrape_group_not_panicked.
  - apply scrape_not_panicked.
  - intros env configFile w.
    destruct (scrapeCmd_Run_spec env configFile w)
      as [err ?|? ?|? ? ?|err ? ? ? ?|dl gs o ? ? ? ? Ho]; try done.
    by destruct Ho.
Qed.

(** C2. For every group, the calls made while the group is processed
    answer, one for one and in order, the requests of the fields that are
    present, and no call is made for an absent field; when the group is
    processed to its end, the pusher has one more sample per call, from
    the answer of that call. A group with only [member_count] whose
    member call is answered yields one call and one sample, the member
    count; likewise with only [project_count]; a group with neither field
    leaves the pusher and the world as they were. *)
Theorem scrape_group_selects_present_specs (git : Client) (config : Config)
    (p : Pusher) (g : GroupConfig) (w : World) :
  valid_ref (heap w) (DefaultLabels config) →
  let d := read_map (heap w) (DefaultLabels config) in
  let o := scrape_group git config p g w in
  (∃ (cs : list Call) (batch : list Gauge),
     calls (snd o) = calls w ++ cs ∧
     ((fst o = Done (mkPusher (pusher_url p) (pusher_job p)
                       (pusher_collectors p ++ batch)) ∧
       collected d (requests_of_group g) cs batch ∧
       length cs = length (requests_of_group g) ∧
       length batch = length (requests_of_group g)) ∨
      (fst o = Exited 1 ∧
       ∃ (cs0 : list Call) (c : Call) (done : list Request) (r : Request)
         (rest : list Request),
         cs = cs0 ++ [c] ∧ requests_of_group g = done ++ r :: rest ∧
         collected d done cs0 batch ∧ call_request c = Some r ∧
         call_failed c = true))) ∧
  (∀ (mc : MemberCountConfig) (members : list GroupMember) (resp : Response),
     ProjectCount g = None → MemberCount g = Some mc →
     Groups_ListGroupMembers git (calls w) (ID g) member_options =
       ApiOk members resp →
     fst o = Done (mkPusher (pusher_url p) (pusher_job p)
                     (pusher_collectors p ++
                      [member_gauge d (ID g) (TotalItems resp)])) ∧
     calls (snd o) =
       calls w ++
       [CallListGroupMembers (ID g) member_options (ApiOk members resp)]) ∧
  (∀ (pc : ProjectCountConfig) (projects : list Project) (resp : Response),
     ProjectCount g = Some pc → MemberCount g = None →
     Groups_ListGroupProjects git (calls w) (ID g)
       (project_options (default false (IncludeSubGroups pc))) =
       ApiOk projects resp →
     fst o = Done (mkPusher (pusher_url p) (pusher_job p)
                     (pusher_collectors p ++
                      [project_gauge d (ID g) (TotalItems resp)])) ∧
     calls (snd o) =
       calls w ++
       [CallListGroupProjects (ID g)
          (project_options (default false (IncludeSubGroups pc)))
          (ApiOk projects resp)]) ∧
  (ProjectCount g = None → MemberCount g = None → o = (Done p, w)).
Proof.
  intros Hvalid d o.
  assert (Hw : holds_defaults config d w) by done.
  split; [|split; [|split]].
  - subst o.
    destruct (scrape_group_outcome git config d p g w Hw)
      as [h' out cs batch Hc|h' out cs0 c batch done r rest Hp Hc Hr Hf].
    + exists cs, batch. split; [done|]. left. split; [done|]. split; [done|].
      destruct Hc as [Hreq Hb].
      apply Forall2_length in Hb. apply Forall2_length in Hreq. lia.
    + exists (cs0 ++ [c]), batch. split; [done|]. right. split; [done|].
      by exists cs0, c, done, r, rest.
  - intros mc members resp Hpc Hmc Hres. subst o.
    rewrite scrape_group_blocks. unfold project_block, member_block.
    rewrite Hpc, Hmc, bind_unfold, mret_unfold, bind_unfold.
    rewrite getGroupMembersCount_eq. cbv zeta. rewrite Hres.
    by rewrite emit_eq.
  - intros pc projects resp Hpc Hmc Hres. subst o.
    rewrite scrape_group_blocks. unfold project_block, member_block.
    rewrite Hpc, Hmc, bind_unfold, bind_unfold.
    rewrite (getProjectCount_eq _ _ pc) by done. cbv zeta. rewrite Hres.
    by rewrite emit_eq.
  - intros Hpc Hmc. subst o.
    rewrite scrape_group_blocks. unfold project_block, member_block.
    by rewrite Hpc, Hmc.
Qed.

Lemma scrape_group_selects_present_specs_witness :
  fst (scrape_group Scenario.totals_client
         (mkConfig (Some 0%nat) [Scenario.members_only "G2"])
         (push_New "http://localhost:9091" "gitlab_scrape")
         (Scenario.members_only "G2") Scenario.team_store) =
    Done (mkPusher "http://localhost:9091" "gitlab_scrape"
            [member_gauge {[ "team" := "x" ]} "G2" 2]) ∧
  calls (snd (scrape_group Scenario.totals_client
                (mkConfig (Some 0%nat) [Scenario.members_only "G2"])
                (push_New "http://localhost:9091" "gitlab_scrape")
                (Scenario.members_only "G2") Scenario.team_store)) =
    [CallListGroupMembers "G2" member_options
       (ApiOk [mkGroupMember 5] (mkResponse 2))].
Proof.
  assert (Hvalid : valid_ref (heap Scenario.team_store) (Some 0%nat))
    by (simpl; lia).
  exact (proj1 (proj2
    (scrape_group_selects_present_specs Scenario.totals_client
       (mkConfig (Some 0%nat) [Scenario.members_only "G2"])
       (push_New "http://localhost:9091" "gitlab_scrape")
       (Scenario.members_only "G2") Scenario.team_store Hvalid))
    mkMemberCountConfig [mkGroupMember 5] (mkResponse 2)
    eq_refl eq_refl eq_refl).
Defined.

(** C1. With default labels [{team: x}], group G1 asking for the project
    count (total 3) and group G2 for both counts (totals 7 and 2), the
    command returns without exiting, makes the three list calls and then
    one push whose batch is the project count 3 of G1, the project count 7
    of G2 and the member count 2 of G2, in this order, each under
    [{team: x}] and its [group_id]. In every run that ends without an
    exit, the batch of the one push follows the groups in the order of the
    configuration, the project count of a group before its member
    count. *)
Theorem scrape_end_to_end :
  (let o := scrapeCmd_Run Scenario.end_to_end_env "config.json"
              Scenario.empty_world in
   fst o = Done tt ∧
   calls (snd o) =
     [CallListGroupProjects "G1" (project_options false)
        (ApiOk [mkProject 11] (mkResponse 3));
      CallListGroupProjects "G2" (project_options false)
        (ApiOk [mkProject 21] (mkResponse 7));
      CallListGroupMembers "G2" member_options
        (ApiOk [mkGroupMember 5] (mkResponse 2));
      CallPush "http://localhost:9091" "gitlab_scrape"
        [mkGauge "gitlab_group_project_count"
           "Number of projects in the GitLab group"
           (<[ "team" := "x" ]> {[ "group_id" := "G1" ]}) 3;
         mkGauge "gitlab_group_project_count"
           "Number of projects in the GitLab group"
           (<[ "team" := "x" ]> {[ "group_id" := "G2" ]}) 7;
         mkGauge "gitlab_group_members_count"
           "Number of members in the GitLab group"
           (<[ "team" := "x" ]> {[ "group_id" := "G2" ]}) 2]
        None]) ∧
  (∀ (env : Env) (config : Config) (accessToken pushGatewayURL : string)
     (w : World),
     valid_ref (heap w) (DefaultLabels config) →
     fst (scrape env config accessToken pushGatewayURL w) = Done tt →
     ∃ (cs : list Call) (batch : list Gauge),
       calls (snd (scrape env config accessToken pushGatewayURL w)) =
         calls w ++ cs ++ [CallPush pushGatewayURL "gitlab_scrape" batch None] ∧
       collected (read_map (heap w) (DefaultLabels config))
         (plan (Groups config)) cs batch ∧
       series_of <$> batch = expected_series (Groups config)).
Proof.
  split.
  - by vm_compute.
  - intros env config accessToken pushGatewayURL w Hvalid.
    assert (Hw : holds_defaults config
                   (read_map (heap w) (DefaultLabels config)) w) by done.
    destruct (scrape_spec env config _ accessToken pushGatewayURL w Hw)
      as [h' err|h' out cs batch Hc|h' out cs batch err Hc
          |h' out cs0 c batch done r rest Hp Hc Hr Hf];
      cbn [fst snd calls]; intros Hdone; try discriminate Hdone.
    exists cs, batch. split; [done|]. split; [done|].
    by rewrite (collected_series _ _ _ _ Hc), plan_series.
Qed.

Lemma scrape_end_to_end_witness :
  ∃ (cs : list Call) (batch : list Gauge),
    calls (snd (scrape Scenario.end_to_end_env
                  (mkConfig (Some 0%nat) Scenario.two_groups)
                  "glpat-token" "http://localhost:9091" Scenario.team_store)) =
      calls Scenario.team_store ++ cs ++
      [CallPush "http://localhost:9091" "gitlab_scrape" batch None] ∧
    collected (read_map (heap Scenario.team_store) (Some 0%nat))
      (plan Scenario.two_groups) cs batch ∧
    series_of <$> batch =
      [("gitlab_group_project_count", Some "G1");
       ("gitlab_group_project_count", Some "G2");
       ("gitlab_group_members_count", Some "G2")].
Proof.
  assert (Hvalid : valid_ref (heap Scenario.team_store) (Some 0%nat))
    by (simpl; lia).
  exact (proj2 scrape_end_to_end Scenario.end_to_end_env
           (mkConfig (Some 0%nat) Scenario.two_groups)
           "glpat-token" "http://localhost:9091" Scenario.team_store
           Hvalid eq_refl).
Defined.

(** C6. If a list call made by [scrape] fails, the run ends with exit
    status 1 and that call is the last one: every call before it
    succeeded, the calls made answer an initial part of the requests of
    the configuration up to the failed one, none of the requests after it
    is made, and no push is made. *)
Theorem collector_failure_is_fatal (env : Env) (config : Config)
    (accessToken pushGatewayURL : string) (w : World) (cs : list Call)
    (c : Call) :
  valid_ref (heap w) (DefaultLabels config) →
  calls (snd (scrape env config accessToken pushGatewayURL w)) =
    calls w ++ cs →
  c ∈ cs →
  call_failed c = true →
  fst (scrape env config accessToken pushGatewayURL w) = Exited 1 ∧
  (∃ cs0 : list Call,
     cs = cs0 ++ [c] ∧ Forall (λ c', call_failed c' = false) cs0) ∧
  Forall (λ c', is_push c' = false) cs ∧
  ∃ (done : list Request) (r : Request) (rest : list Request),
    plan (Groups config) = done ++ r :: rest ∧
    Forall2 (λ c' r', call_request c' = Some r') cs (done ++ [r]).
Proof.
  intros Hvalid.
  assert (Hw : holds_defaults config
                 (read_map (heap w) (DefaultLabels config)) w) by done.
  assert (Hok : ∀ d reqs cs1 batch c1,
            collected d reqs cs1 batch → c1 ∈ cs1 → call_failed c1 = false).
  { intros d reqs cs1 batch c1 Hc Hin. apply collected_calls in Hc.
    rewrite Forall_forall in Hc. by apply Hc. }
  destruct (scrape_spec env config _ accessToken pushGatewayURL w Hw)
    as [h' err|h' out cs1 batch Hc|h' out cs1 batch err Hc
        |h' out cs0 c0 batch done r rest Hp Hc Hr Hf];
    cbn [fst snd calls]; intros Hcalls Hin Hfailed.
  - rewrite <- (app_nil_r (calls w)) in Hcalls at 1.
    apply app_inv_head in Hcalls as <-. by apply elem_of_nil in Hin.
  - apply app_inv_head in Hcalls as <-.
    apply elem_of_app in Hin as [Hin|Hin].
    + by rewrite (Hok _ _ _ _ _ Hc Hin) in Hfailed.
    + apply list_elem_of_singleton in Hin. by subst c.
  - apply app_inv_head in Hcalls as <-.
    apply elem_of_app in Hin as [Hin|Hin].
    + by rewrite (Hok _ _ _ _ _ Hc Hin) in Hfailed.
    + apply list_elem_of_singleton in Hin. by subst c.
  - apply app_inv_head in Hcalls as <-.
    apply elem_of_app in Hin as [Hin|Hin].
    { by rewrite (Hok _ _ _ _ _ Hc Hin) in Hfailed. }
    apply list_elem_of_singleton in Hin. subst c0.
    pose proof (collected_calls _ _ _ _ Hc) as Hcs0.
    split; [done|]. split; [|split].
    + exists cs0. split; [done|].
      eapply Forall_impl; [exact Hcs0|]. by intros c' [_ ?].
    + apply Forall_app. split.
      * eapply Forall_impl; [exact Hcs0|]. by intros c' [? _].
      * constructor; [|done]. by destruct c.
    + exists done, r, rest. split; [done|].
      apply Forall2_app; [by destruct Hc|]. by constructor.
Qed.

Lemma collector_failure_is_fatal_witness :
  fst (scrape Scenario.failing_env
         (mkConfig (Some 0%nat) Scenario.three_groups)
         "glpat-token" "http://localhost:9091" Scenario.team_store) =
    Exited 1 ∧
  Forall (λ c', is_push c' = false)
    [CallListGroupProjects "G1" (project_options false)
       (ApiOk [mkProject 1] (mkResponse 4));
     CallListGroupMembers "G1" member_options
       (ApiOk [mkGroupMember 1] (mkResponse 6));
     CallListGroupProjects "G2" (project_options false)
       (ApiErr "401 Unauthorized")].
Proof.
  assert (Hvalid : valid_ref (heap Scenario.team_store) (Some 0%nat))
    by (simpl; lia).
  pose proof (collector_failure_is_fatal Scenario.failing_env
                (mkConfig (Some 0%nat) Scenario.three_groups)
                "glpat-token" "http://localhost:9091" Scenario.team_store
                [CallListGroupProjects "G1" (project_options false)
                   (ApiOk [mkProject 1] (mkResponse 4));
                 CallListGroupMembers "G1" member_options
                   (ApiOk [mkGroupMember 1] (mkResponse 6));
                 CallListGroupProjects "G2" (project_options false)
                   (ApiErr "401 Unauthorized")]
                (CallListGroupProjects "G2" (project_options false)
                   (ApiErr "401 Unauthorized"))
                Hvalid eq_refl
                (list_elem_of_further _ _ _
                   (list_elem_of_further _ _ _ (list_elem_of_here _ _)))
                eq_refl) as (Hexit & _ & Hpush & _).
  split; [exact Hexit | exact Hpush].
Defined.

(** C8. The command ends with exit status 1, a line printed last, when
    the configuration file cannot be read, when the access token or the
    gateway URL is empty, when the configuration cannot be decoded, when a
    list call of a collector fails and when the push fails; the first four
    happen before any call is made. It returns without exiting (the
    process then ends with status zero) only when the file was read, the
    token and the URL are set, the configuration was decoded, every list
    call of the configured groups succeeded and the push succeeded. It
    ends in no other way. *)
Theorem run_exit_status (env : Env) (configFile : string) (w : World) :
  let o := scrapeCmd_Run env configFile w in
  (∀ err : string,
     viper_ReadInConfig env configFile = Some err →
     o = (Exited 1,
          mkWorld (heap w)
            (stdout w ++ ["Failed to read config file: " +:+ err +:+ nl])
            (calls w))) ∧
  (viper_ReadInConfig env configFile = None →
   token_of env = EmptyString →
   o = (Exited 1,
        mkWorld (heap w) (stdout w ++ [token_missing_line]) (calls w))) ∧
  (viper_ReadInConfig env configFile = None →
   token_of env ≠ EmptyString → url_of env = EmptyString →
   o = (Exited 1,
        mkWorld (heap w) (stdout w ++ [url_missing_line]) (calls w))) ∧
  (∀ err : string,
     viper_ReadInConfig env configFile = None →
     token_of env ≠ EmptyString → url_of env ≠ EmptyString →
     viper_decode env = DecodeError err →
     o = (Exited 1,
          mkWorld (heap w)
            (stdout w ++ ["Failed to unmarshal config: " +:+ err +:+ nl])
            (calls w))) ∧
  (is_Some (viper_ReadInConfig env configFile) ∨ token_of env = EmptyString ∨
   url_of env = EmptyString ∨ (∃ err, viper_decode env = DecodeError err) →
   fst o = Exited 1 ∧ calls (snd o) = calls w ∧
   ∃ line : string, stdout (snd o) = stdout w ++ [line]) ∧
  (∀ (cs : list Call) (c : Call),
     calls (snd o) = calls w ++ cs → c ∈ cs → call_failed c = true →
     fst o = Exited 1 ∧ last (stdout (snd o)) = Some (failure_line c)) ∧
  (∀ (cs : list Call) (u j : string) (b : list Gauge) (err : string),
     calls (snd o) = calls w ++ cs → CallPush u j b (Some err) ∈ cs →
     fst o = Exited 1 ∧
     last (stdout (snd o)) =
       Some ("Failed to push metrics to Push Gateway: " +:+ err +:+ nl)) ∧
  (fst o = Done tt →
   viper_ReadInConfig env configFile = None ∧
   token_of env ≠ EmptyString ∧ url_of env ≠ EmptyString ∧
   ∃ (dl : option Labels) (gs : list GroupConfig) (cs : list Call)
     (batch : list Gauge),
     viper_decode env = DecodedConfig dl gs ∧
     calls (snd o) =
       calls w ++ cs ++ [CallPush (url_of env) "gitlab_scrape" batch None] ∧
     collected (default ∅ dl) (plan gs) cs batch) ∧
  (fst o = Done tt ∨
   (fst o = Exited 1 ∧
    ∃ (out : list string) (line : string),
      stdout (snd o) = stdout w ++ out ++ [line])).
Proof.
  intros o. subst o.
  assert (Hnil : ∀ (cs : list Call) (c : Call),
            calls w = calls w ++ cs → c ∈ cs → False).
  { intros cs c Hcalls Hin.
    rewrite <- (app_nil_r (calls w)) in Hcalls at 1.
    apply app_inv_head in Hcalls as <-. by apply elem_of_nil in Hin. }
  pose proof (scrapeCmd_Run_spec env configFile w) as Hrun.
  split_and!.
  - intros err H.
    destruct Hrun; unfold print_and_exit, read_failure_line; congruence.
  - intros H1 H2.
    destruct Hrun; unfold print_and_exit; congruence.
  - intros H1 H2 H3.
    destruct Hrun; unfold print_and_exit; congruence.
  - intros err H1 H2 H3 H4.
    destruct Hrun; unfold print_and_exit, unmarshal_failure_line; congruence.
  - intros Hcause.
    destruct Hrun as [err Hread|Hread Htok|Hread Htok Hurl
                      |err Hread Htok Hurl Hdec|dl gs o Hread Htok Hurl Hdec Ho];
      unfold print_and_exit; cbn [fst snd calls stdout]; eauto.
    destruct Hcause as [[err Herr]|[?|[?|[err Herr]]]]; congruence.
  - intros cs c Hcalls Hin Hfailed.
    destruct Hrun as [err Hread|Hread Htok|Hread Htok Hurl
                      |err Hread Htok Hurl Hdec|dl gs o Hread Htok Hurl Hdec Ho];
      try (by destruct (Hnil _ _ Hcalls Hin)).
    by apply (scrape_outcome_failed_call _ _ _ _ _ _ _ Ho Hcalls Hin).
  - intros cs u j b err Hcalls Hin.
    destruct Hrun as [err' Hread|Hread Htok|Hread Htok Hurl
                      |err' Hread Htok Hurl Hdec|dl gs o Hread Htok Hurl Hdec Ho];
      try (by destruct (Hnil _ _ Hcalls Hin)).
    by eapply (scrape_outcome_failed_call _ _ _ _ _ _ _ Ho Hcalls Hin).
  - intros Hdone.
    destruct Hrun as [err Hread|Hread Htok|Hread Htok Hurl
                      |err Hread Htok Hurl Hdec|dl gs o Hread Htok Hurl Hdec Ho];
      try discriminate Hdone.
    split; [done|]. split; [done|]. split; [done|].
    destruct Ho as [h' err|h' out cs batch Hc|h' out cs batch err Hc
                    |h' out cs0 c batch done r rest Hp Hc Hr Hf];
      try discriminate Hdone.
    by exists dl, gs, cs, batch.
  - destruct Hrun as [err Hread|Hread Htok|Hread Htok Hurl
                      |err Hread Htok Hurl Hdec|dl gs o Hread Htok Hurl Hdec Ho];
      try (right; split; [done|]; by eexists [], _).
    by eapply scrape_outcome_exit_or_done.
Qed.

Lemma run_exit_status_witness :
  scrapeCmd_Run unreadable_env "config.json" Scenario.empty_world =
  (Exited 1,
   mkWorld []
     ["Failed to read config file: open config.json: no such file or directory"
      +:+ nl] []).
Proof.
  exact (proj1 (run_exit_status unreadable_env "config.json"
                  Scenario.empty_world)
           "open config.json: no such file or directory" eq_refl).
Defined.


(** * Further properties *)

Lemma omap_line_nil : omap line_of_call [] = [].
Proof. reflexivity. Qed.

Lemma ret_traced {A} (a : A) (w : World) : traced (mret a : M A) w.
Proof.
  exists []. rewrite mret_unfold. simpl. by rewrite !app_nil_r.
Qed.

Lemma bind_traced {A B} (m : M A) (k : A → M B) (w : World) :
  traced m w → (∀ (a : A) (w' : World), traced (k a) w') →
  traced (m ≫= k) w.
Proof.
  intros (cs1 & Hc1 & Ho1) Hk. unfold traced. rewrite bind_unfold.
  destruct (m w) as [[a|code|] w1]; simpl in Hc1, Ho1;
    [|by exists cs1|by exists cs1].
  destruct (Hk a w1) as (cs2 & Hc2 & Ho2).
  exists (cs1 ++ cs2). rewrite Hc2, Ho2, Hc1, Ho1, omap_app.
  by rewrite <- !app_assoc.
Qed.

(** What [emit] does to the output and to the calls, for any store. *)
Lemma emit_effect (config : Config) (p : Pusher) (gid name help line : string)
    (count : Z) (w : World) :
  ∃ (p' : Pusher) (h' : list Labels),
    emit config p gid name help line count w =
    (Done p', mkWorld h' (stdout w ++ [line]) (calls w)).
Proof.
  unfold emit.
  rewrite bind_unfold. unfold fmt_Print at 1.
  rewrite bind_unfold. unfold new_map at 1.
  rewrite bind_unfold, mergeLabels_spec.
  rewrite bind_unfold. unfold prometheus_NewGauge at 1.
  cbn [heap stdout calls]. rewrite mret_unfold. eauto.
Qed.

Lemma project_block_traced (git : Client) (config : Config) (p : Pusher)
    (g : GroupConfig) (w : World) :
  traced (project_block git config p g) w.
Proof.
  unfold project_block.
  destruct (ProjectCount g) as [pc|] eqn:Hpc; [|apply ret_traced].
  unfold traced. rewrite bind_unfold, (getProjectCount_eq _ _ pc) by done.
  cbv zeta.
  destruct (Groups_ListGroupProjects _ _ _ _) as [items resp|err] eqn:Hres.
  - match goal with
    | |- context [emit ?a ?b ?c ?d ?e ?f ?n ?w'] =>
        destruct (emit_effect a b c d e f n w') as (p' & h' & ->)
    end.
    eexists [_]. by split.
  - eexists [_]. by split.
Qed.

Lemma member_block_traced (git : Client) (config : Config) (p : Pusher)
    (g : GroupConfig) (w : World) :
  traced (member_block git config p g) w.
Proof.
  unfold member_block.
  destruct (MemberCount g) as [mc|]; [|apply ret_traced].
  unfold traced. rewrite bind_unfold, getGroupMembersCount_eq. cbv zeta.
  destruct (Groups_ListGroupMembers _ _ _ _) as [items resp|err] eqn:Hres.
  - match goal with
    | |- context [emit ?a ?b ?c ?d ?e ?f ?n ?w'] =>
        destruct (emit_effect a b c d e f n w') as (p' & h' & ->)
    end.
    eexists [_]. by split.
  - eexists [_]. by split.
Qed.

Lemma groups_loop_traced (git : Client) (config : Config)
    (gs : list GroupConfig) (p : Pusher) (w : World) :
  traced (for_range_with gs (scrape_group git config) p) w.
Proof.
  revert p w. induction gs as [|g gs IH]; intros p w; [apply ret_traced|].
  change (for_range_with (g :: gs) (scrape_group git config) p)
    with (scrape_group git config p g ≫=
          for_range_with gs (scrape_group git config)).
  apply bind_traced; [|done].
  rewrite scrape_group_blocks.
  apply bind_traced; [apply project_block_traced|].
  intros p1 w1. apply member_block_traced.
Qed.

Lemma scrape_unfold (env : Env) (config : Config)
    (accessToken pushGatewayURL : string) :
  scrape env config accessToken pushGatewayURL =
  match gitlab_NewClient env accessToken with
  | inr err =>
      fmt_Print ("Failed to create client: " +:+ err +:+ nl);;
      os_Exit 1
  | inl git =>
      for_range_with (Groups config) (scrape_group git config)
        (push_New pushGatewayURL "gitlab_scrape") ≫=
      push_and_report env
  end.
Proof. reflexivity. Qed.

Lemma push_and_report_eq (env : Env) (p : Pusher) (w : World) :
  push_and_report env p w =
  let err :=
    gateway_push env (calls w) (pusher_url p) (pusher_job p)
      (pusher_collectors p) in
  let c := CallPush (pusher_url p) (pusher_job p) (pusher_collectors p) err in
  match err with
  | Some e =>
      (Exited 1,
       mkWorld (heap w) (stdout w ++ [push_failure_line e]) (calls w ++ [c]))
  | None => (Done tt, mkWorld (heap w) (stdout w) (calls w ++ [c]))
  end.
Proof.
  unfold push_and_report. rewrite bind_unfold. unfold Pusher_Push at 1.
  cbv zeta. by destruct (gateway_push env _ _ _ _).
Qed.

Lemma push_and_report_traced (env : Env) (p : Pusher) (w : World) :
  traced (push_and_report env p) w.
Proof.
  unfold traced. rewrite push_and_report_eq. cbv zeta.
  destruct (gateway_push env _ _ _ _) as [err|]; eexists [_];
    (split; [done|]); cbn [snd stdout omap list_omap line_of_call]; [done|].
  by rewrite app_nil_r.
Qed.

(** X4. Whatever the configuration, the client and the gateway do, the
    lines [scrape] prints follow its calls one for one: after an answered
    list call the progress line with the group and the count, after a
    failed list call the failure line, after a refused push the push
    failure line, after an accepted push nothing; the only other line is
    the one for a client that cannot be created. *)
Theorem scrape_output_follows_calls (env : Env) (config : Config)
    (accessToken pushGatewayURL : string) (w : World) :
  ∃ cs : list Call,
    calls (snd (scrape env config accessToken pushGatewayURL w)) =
      calls w ++ cs ∧
    stdout (snd (scrape env config accessToken pushGatewayURL w)) =
      stdout w ++ omap line_of_call cs ++
      match gitlab_NewClient env accessToken with
      | inl _ => []
      | inr err => ["Failed to create client: " +:+ err +:+ nl]
      end.
Proof.
  rewrite scrape_unfold.
  destruct (gitlab_NewClient env accessToken) as [git|err].
  - match goal with
    | |- ∃ cs, calls (snd (?m w)) = _ ∧ _ =>
        assert (traced m w) as (cs & Hc & Ho)
    end.
    { apply bind_traced; [apply groups_loop_traced|].
      intros p1 w1. apply push_and_report_traced. }
    exists cs. by rewrite app_nil_r.
  - exists []. rewrite bind_unfold. unfold fmt_Print at 1. simpl.
    by rewrite app_nil_r.
Qed.

Lemma merge_sets_cons_merged (sets1 sets2 : list Labels) :
  merge_sets (merge_sets sets1 :: sets2) = merge_sets (sets1 ++ sets2).
Proof.
  unfold merge_sets at 1 3. rewrite foldl_app. simpl.
  by rewrite (right_id_L ∅ (∪)).
Qed.

(** X1. Merging composes: when the map returned by one call of
    [mergeLabels] is the first argument of a second call, the second result
    holds what one call on all the sets, in the same order, would hold. The
    further sets are maps that exist before the first call. *)
Theorem mergeLabels_composes (labelSets1 labelSets2 : list mapref)
    (w : World) :
  Forall (valid_ref (heap w)) labelSets2 →
  ∃ (r1 : mapref) (w1 : World),
    mergeLabels labelSets1 w = (Done r1, w1) ∧
    merged_labels (r1 :: labelSets2) w1 =
    merged_labels (labelSets1 ++ labelSets2) w.
Proof.
  intros Hvalid. rewrite mergeLabels_spec. eexists _, _. split; [done|].
  rewrite !merged_labels_eq. cbn [heap]. rewrite fmap_cons, fmap_app.
  assert (read_map (heap w ++ [merge_sets (read_map (heap w) <$> labelSets1)])
            (Some (length (heap w))) =
          merge_sets (read_map (heap w) <$> labelSets1)) as ->.
  { simpl. by rewrite list_lookup_middle. }
  rewrite merge_sets_cons_merged. f_equal. f_equal.
  apply list_fmap_ext. intros i r Hr.
  apply read_map_app_valid.
  rewrite Forall_forall in Hvalid. apply Hvalid.
  by eapply list_elem_of_lookup_2.
Qed.

Lemma mergeLabels_composes_witness :
  ∃ (r1 : mapref) (w1 : World),
    mergeLabels [Some 0%nat; None] Scenario.team_store = (Done r1, w1) ∧
    merged_labels (r1 :: [Some 0%nat]) w1 =
    merged_labels ([Some 0%nat; None] ++ [Some 0%nat]) Scenario.team_store.
Proof.
  apply (mergeLabels_composes [Some 0%nat; None] [Some 0%nat]
           Scenario.team_store).
  constructor; [simpl; lia|constructor].
Defined.

Lemma merge_sets_agree_lookup (sets : list Labels) (k v : string) :
  (∀ a b : Labels, a ∈ sets → b ∈ sets → agree a b) →
  merge_sets sets !! k = Some v ↔ ∃ s : Labels, s ∈ sets ∧ s !! k = Some v.
Proof.
  intros Hagree. split.
  - intros (i & s & Hi & Hk & _)%merge_sets_lookup_Some.
    exists s. split; [by eapply list_elem_of_lookup_2|done].
  - intros (s & Hs & Hk).
    destruct (merge_sets sets !! k) as [v'|] eqn:Hm.
    + apply merge_sets_lookup_Some in Hm as (i & s' & Hi & Hk' & _).
      f_equal. eapply (Hagree s' s); [by eapply list_elem_of_lookup_2|done..].
    + rewrite merge_sets_lookup_None in Hm. by rewrite (Hm s Hs) in Hk.
Qed.

(** X2. The order of the arguments of [mergeLabels] matters only for keys
    that two sets give different values: when every two input sets agree
    on the keys they share, the result holds exactly the entries of the
    inputs, and any reordering of the arguments gives the same labels. *)
Theorem mergeLabels_order_irrelevant_when_agreeing
    (labelSets labelSets' : list mapref) (w : World) :
  (∀ r r' : mapref,
     r ∈ labelSets → r' ∈ labelSets →
     agree (read_map (heap w) r) (read_map (heap w) r')) →
  labelSets ≡ₚ labelSets' →
  (∀ k v : string,
     merged_labels labelSets w !! k = Some v ↔
     ∃ r : mapref, r ∈ labelSets ∧ read_map (heap w) r !! k = Some v) ∧
  merged_labels labelSets' w = merged_labels labelSets w.
Proof.
  intros Hagree Hperm.
  assert (Hsets : ∀ ls : list mapref,
            ls ≡ₚ labelSets →
            ∀ k v, merged_labels ls w !! k = Some v ↔
                   ∃ r, r ∈ labelSets ∧ read_map (heap w) r !! k = Some v).
  { intros ls Hls k v. rewrite merged_labels_eq, merge_sets_agree_lookup.
    - split.
      + intros (s & (r & -> & Hr)%list_elem_of_fmap & Hk).
        exists r. by rewrite <- Hls.
      + intros (r & Hr & Hk). exists (read_map (heap w) r).
        split; [|done]. apply list_elem_of_fmap. exists r.
        by rewrite Hls.
    - intros a b (r & -> & Hr)%list_elem_of_fmap
        (r' & -> & Hr')%list_elem_of_fmap.
      apply Hagree; by rewrite <- Hls. }
  split; [by apply Hsets|].
  apply map_eq. intros k. apply option_eq. intros v.
  by rewrite (Hsets labelSets' (symmetry Hperm)), (Hsets labelSets).
Qed.

Lemma agree_singletons (k1 v1 k2 v2 : string) :
  k1 ≠ k2 → agree {[ k1 := v1 ]} {[ k2 := v2 ]}.
Proof.
  intros Hne k v v' [<- _]%lookup_singleton_Some [Heq _]%lookup_singleton_Some.
  by destruct Hne.
Qed.

Lemma agree_same (a : Labels) : agree a a.
Proof. intros k v v' Hk Hk'. congruence. Qed.

Lemma mergeLabels_order_irrelevant_when_agreeing_witness :
  merged_labels [Some 1%nat; Some 0%nat]
    (mkWorld [ {[ "team" := "x" ]}; {[ "group_id" := "G1" ]} ] [] []) =
  merged_labels [Some 0%nat; Some 1%nat]
    (mkWorld [ {[ "team" := "x" ]}; {[ "group_id" := "G1" ]} ] [] []).
Proof.
  refine (proj2 (mergeLabels_order_irrelevant_when_agreeing
                   [Some 0%nat; Some 1%nat] [Some 1%nat; Some 0%nat]
                   (mkWorld [ {[ "team" := "x" ]}; {[ "group_id" := "G1" ]} ]
                      [] []) _ _)).
  - intros r r' Hr Hr'.
    apply list_elem_of_In in Hr, Hr'. simpl in Hr, Hr'.
    destruct Hr as [<-|[<-|[]]], Hr' as [<-|[<-|[]]].
    + apply agree_same.
    + by apply (agree_singletons "team" "x" "group_id" "G1").
    + by apply (agree_singletons "group_id" "G1" "team" "x").
    + apply agree_same.
  - apply Permutation_swap.
Defined.

Lemma plan_elem (gs : list GroupConfig) (r : Request) :
  r ∈ plan gs → ∃ g : GroupConfig, g ∈ gs ∧ r ∈ requests_of_group g.
Proof.
  induction gs as [|g gs IH]; [by intros ?%elem_of_nil|].
  change (plan (g :: gs)) with (requests_of_group g ++ plan gs).
  intros [Hr|Hr]%elem_of_app.
  - exists g. split; [by left|done].
  - destruct (IH Hr) as (g' & Hg' & Hr'). exists g'. split; [by right|done].
Qed.

Lemma requests_of_group_elem (g : GroupConfig) (r : Request) :
  r ∈ requests_of_group g →
  request_gid r = ID g ∧
  match r with
  | ReqProjects _ opt =>
      ∃ b : bool, opt = project_options b ∧ is_Some (ProjectCount g)
  | ReqMembers _ opt => opt = member_options ∧ is_Some (MemberCount g)
  end.
Proof.
  unfold requests_of_group.
  destruct (ProjectCount g) as [pc|], (MemberCount g) as [mc|];
    intros Hr; apply list_elem_of_In in Hr; simpl in Hr;
    repeat destruct Hr as [<-|Hr]; try done; simpl; eauto.
Qed.

Lemma plan_length (gs : list GroupConfig) :
  (length (plan gs) ≤ 2 * length gs)%nat.
Proof.
  unfold plan. induction gs as [|g gs IH]; [done|].
  rewrite fmap_cons, concat_cons, length_app. simpl.
  assert (length (requests_of_group g) ≤ 2)%nat; [|lia].
  unfold requests_of_group.
  destruct (ProjectCount g), (MemberCount g); simpl; lia.
Qed.

(** The sample of a call that answers a request of the plan. *)
Lemma collected_groups (d : Labels) (gs : list GroupConfig)
    (reqs : list Request) (cs : list Call) (batch : list Gauge) :
  collected d reqs cs batch →
  (∀ r : Request, r ∈ reqs → r ∈ plan gs) →
  Forall (λ g, ∃ grp : GroupConfig,
            grp ∈ gs ∧ ConstLabels g = group_labels d (ID grp)) batch.
Proof.
  intros [Hr Hb]. revert batch Hb.
  induction Hr as [|c r cs reqs Hc _ IH]; intros batch Hb Hplan.
  - by apply Forall2_nil_inv_l in Hb as ->.
  - apply Forall2_cons_inv_l in Hb as (g & batch' & Hg & Hb & ->).
    constructor.
    + destruct (plan_elem gs r) as (grp & Hgrp & Hin); [apply Hplan; by left|].
      apply requests_of_group_elem in Hin as [Hgid _].
      exists grp. split; [done|]. rewrite <- Hgid.
      destruct c as [gid opt [items resp|err]|gid opt [items resp|err]|u j b e];
        cbn [gauge_of_call call_request] in Hg, Hc; try discriminate Hg;
        by injection Hg as <-; injection Hc as <-.
    + apply IH; [done|]. intros r' Hr'. apply Hplan. by right.
Qed.

(** A push among the new calls of [scrape] is the last of them, goes to
    the given URL under the job of the program, and carries the samples
    of the calls before it, which answer the whole plan. *)
Lemma scrape_outcome_push (d : Labels) (gs : list GroupConfig) (url : string)
    (w : World) (o : Result unit * World) :
  scrape_outcome d gs url w o →
  ∃ cs : list Call,
    calls (snd o) = calls w ++ cs ∧
    (Forall (λ c, is_push c = false) cs ∨
     ∃ (cs0 : list Call) (batch : list Gauge) (e : option string),
       cs = cs0 ++ [CallPush url "gitlab_scrape" batch e] ∧
       collected d (plan gs) cs0 batch ∧
       (e = None ↔ fst o = Done tt)).
Proof.
  intros [h' err|h' out cs batch Hc|h' out cs batch err Hc
          |h' out cs0 c batch done r rest Hp Hc Hr Hf]; cbn [fst snd calls].
  - exists []. split; [by rewrite app_nil_r|]. by left.
  - eexists. split; [done|]. right. by exists cs, batch, None.
  - eexists. split; [done|]. right. exists cs, batch, (Some err).
    split; [done|]. split; [done|]. by split.
  - eexists. split; [done|]. left. apply Forall_app. split.
    + eapply Forall_impl; [by eapply collected_calls|]. by intros c' [? _].
    + constructor; [|done]. by destruct c.
Qed.

(** X3. Every sample [scrape] pushes is labelled with the ID of a group
    of the configuration under [group_id], also when the default labels
    define [group_id] themselves, and with every other default label as it
    was when [scrape] started, and with nothing else; without default
    labels the labels are the [group_id] alone. *)
Theorem pushed_labels_are_defaults_under_group_id (env : Env)
    (config : Config) (accessToken pushGatewayURL : string) (w : World) :
  valid_ref (heap w) (DefaultLabels config) →
  ∃ cs : list Call,
    calls (snd (scrape env config accessToken pushGatewayURL w)) =
      calls w ++ cs ∧
    ∀ (u j : string) (batch : list Gauge) (e : option string) (g : Gauge),
      CallPush u j batch e ∈ cs → g ∈ batch →
      ∃ grp : GroupConfig,
        grp ∈ Groups config ∧
        ConstLabels g !! "group_id" = Some (ID grp) ∧
        (∀ k : string,
           k ≠ "group_id" →
           ConstLabels g !! k = read_map (heap w) (DefaultLabels config) !! k) ∧
        (DefaultLabels config = None →
         ConstLabels g = {[ "group_id" := ID grp ]}).
Proof.
  intros Hvalid.
  assert (Hw : holds_defaults config
                 (read_map (heap w) (DefaultLabels config)) w) by done.
  destruct (scrape_outcome_push _ _ _ _ _
              (scrape_spec env config _ accessToken pushGatewayURL w Hw))
    as (cs & Hcalls & Hcs).
  exists cs. split; [done|]. intros u j batch e g Hin Hg.
  destruct Hcs as [Hnone|(cs0 & batch0 & e0 & -> & Hc & _)].
  { rewrite Forall_forall in Hnone. by apply Hnone in Hin. }
  apply elem_of_app in Hin as [Hin|Hin].
  { apply collected_calls in Hc. rewrite Forall_forall in Hc.
    by destruct (Hc _ Hin) as [[=] _]. }
  apply list_elem_of_singleton in Hin. injection Hin as -> -> -> ->.
  pose proof (collected_groups _ (Groups config) _ _ _ Hc (λ r Hr, Hr)) as Hb.
  rewrite Forall_forall in Hb. destruct (Hb g Hg) as (grp & Hgrp & ->).
  exists grp. split; [done|]. split; [apply group_labels_group_id|]. split.
  - intros k Hk. unfold group_labels.
    rewrite lookup_union_r; [done|]. by apply lookup_singleton_ne.
  - intros ->. unfold group_labels. simpl read_map.
    by rewrite (right_id_L ∅ (∪)).
Qed.

Lemma pushed_labels_are_defaults_under_group_id_witness :
  ∃ cs : list Call,
    calls (snd (scrape Scenario.end_to_end_env
                  (mkConfig (Some 0%nat) Scenario.two_groups)
                  "glpat-token" "http://localhost:9091" Scenario.team_store)) =
      calls Scenario.team_store ++ cs ∧
    ∀ (u j : string) (batch : list Gauge) (e : option string) (g : Gauge),
      CallPush u j batch e ∈ cs → g ∈ batch →
      ∃ grp : GroupConfig,
        grp ∈ Scenario.two_groups ∧
        ConstLabels g !! "group_id" = Some (ID grp) ∧
        (∀ k : string,
           k ≠ "group_id" →
           ConstLabels g !! k =
           read_map (heap Scenario.team_store) (Some 0%nat) !! k) ∧
        ((Some 0%nat : mapref) = None →
         ConstLabels g = {[ "group_id" := ID grp ]}).
Proof.
  apply (pushed_labels_are_defaults_under_group_id Scenario.end_to_end_env
           (mkConfig (Some 0%nat) Scenario.two_groups)
           "glpat-token" "http://localhost:9091" Scenario.team_store).
  simpl. lia.
Defined.

Lemma idle_loop (git : Client) (config : Config) (gs : list GroupConfig)
    (p : Pusher) (w : World) :
  Forall (λ g, ProjectCount g = None ∧ MemberCount g = None) gs →
  for_range_with gs (scrape_group git config) p w = (Done p, w).
Proof.
  induction 1 as [|g gs [Hpc Hmc] _ IH]; [done|].
  change (for_range_with (g :: gs) (scrape_group git config) p)
    with (scrape_group git config p g ≫=
          for_range_with gs (scrape_group git config)).
  rewrite bind_unfold, scrape_group_blocks.
  unfold project_block, member_block. by rewrite Hpc, Hmc.
Qed.

(** X5. A configuration that enables no metric, an empty list of groups
    included, still pushes: [scrape] makes no list call, prints no
    progress line and allocates nothing, and then pushes an empty batch;
    it returns when the gateway accepts the batch and exits with status 1
    and the push failure line when it refuses. *)
Theorem scrape_pushes_empty_batch (env : Env) (config : Config)
    (accessToken pushGatewayURL : string) (git : Client) (w : World) :
  gitlab_NewClient env accessToken = inl git →
  Forall (λ g, ProjectCount g = None ∧ MemberCount g = None) (Groups config) →
  scrape env config accessToken pushGatewayURL w =
  match gateway_push env (calls w) pushGatewayURL "gitlab_scrape" [] with
  | None =>
      (Done tt,
       mkWorld (heap w) (stdout w)
         (calls w ++ [CallPush pushGatewayURL "gitlab_scrape" [] None]))
  | Some err =>
      (Exited 1,
       mkWorld (heap w)
         (stdout w ++
          ["Failed to push metrics to Push Gateway: " +:+ err +:+ nl])
         (calls w ++ [CallPush pushGatewayURL "gitlab_scrape" [] (Some err)]))
  end.
Proof.
  intros Hgit Hidle. rewrite scrape_unfold, Hgit, bind_unfold.
  rewrite (idle_loop _ _ _ _ _ Hidle), push_and_report_eq. cbv zeta.
  cbn [pusher_url pusher_job pusher_collectors push_New].
  by destruct (gateway_push env _ _ _ _).
Qed.

Lemma scrape_pushes_empty_batch_witness :
  scrape Scenario.end_to_end_env
    (mkConfig None [Scenario.no_specs "G8"; Scenario.no_specs "G9"])
    "glpat-token" "http://localhost:9091" Scenario.empty_world =
  (Done tt,
   mkWorld [] []
     [CallPush "http://localhost:9091" "gitlab_scrape" [] None]).
Proof.
  refine (scrape_pushes_empty_batch Scenario.end_to_end_env
            (mkConfig None [Scenario.no_specs "G8"; Scenario.no_specs "G9"])
            "glpat-token" "http://localhost:9091" Scenario.totals_client
            Scenario.empty_world eq_refl _).
  repeat constructor.
Defined.

(** X6. The command pushes at most once, and a push is its last call: it
    goes to the gateway URL the command read, which is not empty, under the
    job [gitlab_scrape]; every call before it is a list call that
    succeeded; and the command returns without exiting exactly when the
    gateway accepts the push. *)
Theorem push_is_single_and_last (env : Env) (configFile : string)
    (w : World) :
  ∃ cs : list Call,
    calls (snd (scrapeCmd_Run env configFile w)) = calls w ++ cs ∧
    ∀ (i : nat) (u j : string) (batch : list Gauge) (e : option string),
      cs !! i = Some (CallPush u j batch e) →
      S i = length cs ∧
      u = viper_GetString env "push_gateway_url" "PUSHGATEWAY_URL" ∧
      u ≠ EmptyString ∧ j = "gitlab_scrape" ∧
      Forall (λ c, is_push c = false ∧ call_failed c = false) (take i cs) ∧
      (e = None ↔ fst (scrapeCmd_Run env configFile w) = Done tt).
Proof.
  destruct (scrapeCmd_Run_spec env configFile w)
    as [err Hread|Hread Htok|Hread Htok Hurl|err Hread Htok Hurl Hdec
        |dl gs o Hread Htok Hurl Hdec Ho];
    try (exists []; split; [by rewrite app_nil_r|]; by intros i ?????).
  destruct (scrape_outcome_push _ _ _ _ _ Ho) as (cs & Hcalls & Hcs).
  exists cs. split; [done|]. intros i u j batch e Hi.
  destruct Hcs as [Hnone|(cs0 & batch0 & e0 & -> & Hc & Hdone)].
  { rewrite Forall_forall in Hnone.
    by apply list_elem_of_lookup_2, Hnone in Hi. }
  pose proof (collected_calls _ _ _ _ Hc) as Hcs0.
  apply lookup_app_Some in Hi as [Hi|[Hlen Hi]].
  { rewrite Forall_forall in Hcs0.
    by destruct (Hcs0 _ (list_elem_of_lookup_2 _ _ _ Hi)) as [[=] _]. }
  apply list_lookup_singleton_Some in Hi as [Hi0 [= <- <- <- <-]].
  assert (i = length cs0) as -> by lia.
  rewrite length_app, take_app_length. simpl.
  split; [lia|]. by split_and!.
Qed.

(** X7. When the configuration is read and decoded and the token and the
    URL are set but the client cannot be created from the token, the
    command prints the client failure line and ends with exit status 1:
    no list call and no push is made. *)
Theorem client_creation_failure_exits (env : Env) (configFile : string)
    (w : World) (dl : option Labels) (gs : list GroupConfig) (err : string) :
  viper_ReadInConfig env configFile = None →
  viper_GetString env "access_token" "GITLAB_ACCESS_TOKEN" ≠ EmptyString →
  viper_GetString env "push_gateway_url" "PUSHGATEWAY_URL" ≠ EmptyString →
  viper_decode env = DecodedConfig dl gs →
  gitlab_NewClient env
    (viper_GetString env "access_token" "GITLAB_ACCESS_TOKEN") = inr err →
  fst (scrapeCmd_Run env configFile w) = Exited 1 ∧
  calls (snd (scrapeCmd_Run env configFile w)) = calls w ∧
  stdout (snd (scrapeCmd_Run env configFile w)) =
    stdout w ++ ["Failed to create client: " +:+ err +:+ nl].
Proof.
  intros Hread Htok Hurl Hdec Hgit.
  unfold scrapeCmd_Run. rewrite bind_unfold, Hread, mret_unfold.
  rewrite bind_unfold, getRequiredValue_eq, decide_False by done.
  rewrite bind_unfold, getRequiredValue_eq, decide_False by done.
  rewrite bind_unfold. unfold viper_Unmarshal. rewrite Hdec.
  destruct dl as [m|].
  - rewrite bind_unfold. unfold new_map at 1. rewrite mret_unfold.
    unfold scrape. by rewrite Hgit.
  - rewrite mret_unfold. unfold scrape. by rewrite Hgit.
Qed.

Lemma client_creation_failure_exits_witness :
  fst (scrapeCmd_Run clientless_env "config.json" Scenario.empty_world) =
    Exited 1 ∧
  calls (snd (scrapeCmd_Run clientless_env "config.json"
                Scenario.empty_world)) = [] ∧
  stdout (snd (scrapeCmd_Run clientless_env "config.json"
                 Scenario.empty_world)) =
    [] ++ ["Failed to create client: " +:+ "invalid base URL" +:+ nl].
Proof.
  apply (client_creation_failure_exits clientless_env "config.json"
           Scenario.empty_world None Scenario.two_groups "invalid base URL");
    done.
Defined.

Lemma plan_frugal (gs : list GroupConfig) (c : Call) (r : Request) :
  r ∈ plan gs → call_request c = Some r → frugal c.
Proof.
  intros (g & _ & Hr)%plan_elem Hc.
  apply requests_of_group_elem in Hr as [_ Hr].
  destruct c as [gid opt res|gid opt res|u j b e];
    cbn [call_request] in Hc; [| |done]; injection Hc as <-.
  - destruct Hr as (b & -> & _). by split_and!.
  - by destruct Hr as [-> _].
Qed.

Lemma answers_frugal (gs : list GroupConfig) (cs : list Call)
    (reqs : list Request) :
  Forall2 (λ c r, call_request c = Some r) cs reqs →
  (∀ r : Request, r ∈ reqs → r ∈ plan gs) →
  Forall frugal cs ∧ length (omap call_request cs) = length reqs.
Proof.
  induction 1 as [|c r cs reqs Hc _ IH]; intros Hplan; [done|].
  destruct IH as [IH1 IH2]; [intros r' Hr'; apply Hplan; by right|].
  split.
  - constructor; [|done]. eapply plan_frugal; [|done]. apply Hplan. by left.
  - cbn [omap list_omap]. rewrite Hc. simpl. by rewrite <- IH2.
Qed.

(** X8. The cost of a run is bounded by the configuration and not by the
    size of the groups: the command makes at most two list calls per
    configured group, none when the configuration cannot be decoded, and
    every list call asks for one item of page one, a project call with
    [simple] set and [include_subgroups] given. *)
Theorem list_calls_are_bounded_and_frugal (env : Env) (configFile : string)
    (w : World) :
  ∃ cs : list Call,
    calls (snd (scrapeCmd_Run env configFile w)) = calls w ++ cs ∧
    Forall frugal cs ∧
    match viper_decode env with
    | DecodedConfig _ gs =>
        (length (omap call_request cs) ≤ 2 * length gs)%nat
    | DecodeError _ => cs = []
    end.
Proof.
  destruct (scrapeCmd_Run_spec env configFile w)
    as [err Hread|Hread Htok|Hread Htok Hurl|err Hread Htok Hurl Hdec
        |dl gs o Hread Htok Hurl Hdec Ho];
    try (exists []; split; [by rewrite app_nil_r|]; split; [done|];
         destruct (viper_decode env); [simpl; lia|done]).
  rewrite Hdec. pose proof (plan_length gs) as Hlen.
  destruct Ho as [h' err|h' out cs batch [Hc _]|h' out cs batch err [Hc _]
                  |h' out cs0 c batch done r rest Hp [Hc _] Hr Hf];
    cbn [snd calls].
  - exists []. split; [by rewrite app_nil_r|]. split; [done|]. simpl. lia.
  - destruct (answers_frugal gs _ _ Hc (λ r Hr, Hr)) as [Hf Hl].
    eexists. split; [done|]. split.
    + apply Forall_app. split; [done|]. by constructor.
    + rewrite omap_app, length_app, Hl. simpl. lia.
  - destruct (answers_frugal gs _ _ Hc (λ r Hr, Hr)) as [Hf Hl].
    eexists. split; [done|]. split.
    + apply Forall_app. split; [done|]. by constructor.
    + rewrite omap_app, length_app, Hl. simpl. lia.
  - assert (Hall : Forall2 (λ c r, call_request c = Some r)
                     (cs0 ++ [c]) (done ++ [r])).
    { apply Forall2_app; [done|]. by constructor. }
    destruct (answers_frugal gs _ _ Hall) as [Hfr Hl].
    { intros r' Hr'. rewrite Hp.
      apply elem_of_app in Hr' as [Hr'|Hr'%list_elem_of_singleton].
      - apply elem_of_app. by left.
      - subst r'. apply elem_of_app. right. by left. }
    eexists. split; [done|]. split; [done|].
    rewrite Hl. rewrite Hp in Hlen. rewrite !length_app in *. simpl in *. lia.
Qed.

Lemma float64_of_int_exact (n : Z) : Z.abs n ≤ 2 ^ 53 → float64_of_int n = n.
Proof.
  intros Hn.
  destruct (decide (Z.abs n = 2 ^ 53)) as [Heq|Hne].
  { destruct (Z.abs_spec n) as [[_ Ha]|[_ Ha]]; rewrite Ha in Heq.
    - by subst n.
    - assert (n = - 2 ^ 53) as -> by lia. by vm_compute. }
  unfold float64_of_int.
  destruct (decide (Z.abs n = 0)) as [H0|H0].
  { rewrite H0. by simpl. }
  assert (Z.log2 (Z.abs n) < 53) by (apply Z.log2_lt_pow2; lia).
  destruct (Z.leb_spec (Z.log2 (Z.abs n) - 52) 0); [done|lia].
Qed.

Lemma float64_of_int_error (n : Z) :
  Z.abs (float64_of_int n - n) * 2 ^ 53 ≤ Z.abs n.
Proof.
  unfold float64_of_int.
  destruct (Z.leb_spec (Z.log2 (Z.abs n) - 52) 0) as [He|He].
  { rewrite Z.sub_diag. simpl. lia. }
  set (a := Z.abs n) in *. set (e := Z.log2 a - 52) in *.
  assert (Ha : 0 < a).
  { destruct (Z_lt_le_dec 0 a) as [|Hle]; [done|].
    pose proof (Z.log2_nonpos a Hle). subst e. lia. }
  destruct (Z.log2_spec a Ha) as [Hlo _].
  assert (Hpow : 2 ^ Z.log2 a = 2 ^ (e - 1) * 2 ^ 53).
  { rewrite <- Z.pow_add_r by lia. f_equal. lia. }
  assert (Htwo : 2 ^ e = 2 * 2 ^ (e - 1)).
  { replace e with (Z.succ (e - 1)) at 1 by lia. apply Z.pow_succ_r. lia. }
  assert (Hhalf : 0 < 2 ^ (e - 1)) by (apply Z.pow_pos_nonneg; lia).
  rewrite Z.shiftr_div_pow2, Z.land_ones, Z.shiftl_1_l by lia.
  rewrite Z.shiftl_mul_pow2 by lia.
  pose proof (Z.div_mod a (2 ^ e) ltac:(lia)) as Hdiv.
  pose proof (Z.mod_pos_bound a (2 ^ e) ltac:(lia)) as Hmod.
  set (q := a / 2 ^ e) in *. set (r := a mod 2 ^ e) in *.
  assert (Hdiff : ∀ q' : Z,
            Z.abs (q' * 2 ^ e - a) ≤ 2 ^ (e - 1) →
            Z.abs (Z.sgn n * (q' * 2 ^ e) - n) * 2 ^ 53 ≤ a).
  { intros q' Hq'.
    assert (Z.abs (Z.sgn n * (q' * 2 ^ e) - n) = Z.abs (q' * 2 ^ e - a)) as ->.
    { subst a. destruct (Z.abs_spec n) as [[Hs ->]|[Hs ->]].
      - destruct (decide (n = 0)) as [->|]; [simpl in Ha; lia|].
        rewrite Z.sgn_pos by lia. f_equal. lia.
      - rewrite Z.sgn_neg by lia.
        rewrite <- (Z.abs_opp (-1 * (q' * 2 ^ e) - n)). f_equal. lia. }
    nia. }
  destruct (Z.ltb_spec (2 ^ (e - 1)) r) as [Hlt|Hge]; cbn [orb].
  { apply Hdiff. lia. }
  destruct (Z.eqb_spec r (2 ^ (e - 1))) as [Heq|Hneq]; cbn [andb].
  - destruct (Z.odd q); apply Hdiff; lia.
  - apply Hdiff. lia.
Qed.

Lemma gauge_of_call_value (d : Labels) (c : Call) (g : Gauge) :
  gauge_of_call d c = Some g →
  ∃ total : Z, call_total c = Some total ∧ Value g = float64_of_int total.
Proof.
  destruct c as [gid opt [items resp|err]|gid opt [items resp|err]|u j b e];
    cbn [gauge_of_call call_total]; intros Hg; try discriminate Hg;
    injection Hg as <-; by exists (TotalItems resp).
Qed.

(** X9. The value set on a gauge is the count converted to a float64: it
    is the count itself whenever the count is at most 2^53 in absolute
    value, and for every count it differs from the count by at most the
    count divided by 2^53, so by at most 1024 for a 64-bit count. So it is
    for every sample the body of the loop of [scrape] adds to the pusher:
    its value is within these bounds of the total its own list call
    reported. *)
Theorem gauge_value_is_count_up_to_rounding (d : Labels) (gid : string)
    (n : Z) :
  (Z.abs n ≤ 2 ^ 53 →
   Value (project_gauge d gid n) = n ∧ Value (member_gauge d gid n) = n) ∧
  Z.abs (Value (project_gauge d gid n) - n) * 2 ^ 53 ≤ Z.abs n ∧
  Z.abs (Value (member_gauge d gid n) - n) * 2 ^ 53 ≤ Z.abs n ∧
  (Z.abs n ≤ 2 ^ 63 →
   Z.abs (Value (project_gauge d gid n) - n) ≤ 1024 ∧
   Z.abs (Value (member_gauge d gid n) - n) ≤ 1024) ∧
  (∀ (git : Client) (config : Config) (p p' : Pusher) (g : GroupConfig)
     (w w' : World),
     valid_ref (heap w) (DefaultLabels config) →
     scrape_group git config p g w = (Done p', w') →
     ∃ (cs : list Call) (batch : list Gauge),
       calls w' = calls w ++ cs ∧
       pusher_collectors p' = pusher_collectors p ++ batch ∧
       Forall2
         (λ c gauge,
            ∃ total : Z,
              call_total c = Some total ∧
              Z.abs (Value gauge - total) * 2 ^ 53 ≤ Z.abs total ∧
              (Z.abs total ≤ 2 ^ 53 → Value gauge = total))
         cs batch).
Proof.
  cbn [Value project_gauge member_gauge].
  pose proof (float64_of_int_error n) as Herr.
  split_and!; [|done|done| |].
  - intros Hn. by rewrite float64_of_int_exact.
  - intros Hn. assert (2 ^ 63 = 1024 * 2 ^ 53) by done. lia.
  - intros git config p p' g w w' Hvalid Hrun.
    assert (Hw : holds_defaults config
                   (read_map (heap w) (DefaultLabels config)) w) by done.
    pose proof (scrape_group_outcome git config _ p g w Hw) as Hout.
    rewrite Hrun in Hout.
    inversion Hout as [h' out cs batch Hc|]; subst.
    destruct Hc as [_ Hb].
    exists cs, batch. split; [done|]. split; [done|].
    eapply Forall2_impl; [exact Hb|].
    intros c gauge (total & Ht & ->)%gauge_of_call_value.
    exists total. split; [done|].
    split; [apply float64_of_int_error|apply float64_of_int_exact].
Qed.

Lemma gauge_value_is_count_up_to_rounding_witness :
  Value (project_gauge ∅ "G1" (2 ^ 53 - 1)) = 2 ^ 53 - 1 ∧
  Z.abs (Value (project_gauge ∅ "G1" (2 ^ 62 + 1)) - (2 ^ 62 + 1)) ≤ 1024 ∧
  ∃ (cs : list Call) (batch : list Gauge),
    [CallListGroupMembers "G2" member_options
       (ApiOk [mkGroupMember 5] (mkResponse 2))] = [] ++ cs ∧
    [member_gauge {[ "team" := "x" ]} "G2" 2] = [] ++ batch ∧
    Forall2
      (λ c gauge,
         ∃ total : Z,
           call_total c = Some total ∧
           Z.abs (Value gauge - total) * 2 ^ 53 ≤ Z.abs total ∧
           (Z.abs total ≤ 2 ^ 53 → Value gauge = total))
      cs batch.
Proof.
  split; [|split].
  - apply (proj1 (gauge_value_is_count_up_to_rounding ∅ "G1" (2 ^ 53 - 1))).
    by vm_compute.
  - apply (proj1 (proj2 (proj2 (proj2
             (gauge_value_is_count_up_to_rounding ∅ "G1" (2 ^ 62 + 1)))))).
    by vm_compute.
  - assert (Hvalid : valid_ref (heap Scenario.team_store) (Some 0%nat))
      by (simpl; lia).
    assert (Hrun :
      scrape_group Scenario.totals_client
        (mkConfig (Some 0%nat) [Scenario.members_only "G2"])
        (push_New "http://localhost:9091" "gitlab_scrape")
        (Scenario.members_only "G2") Scenario.team_store =
      (Done (mkPusher "http://localhost:9091" "gitlab_scrape"
               [member_gauge {[ "team" := "x" ]} "G2" 2]),
       mkWorld
         [ {[ "team" := "x" ]}; {[ "group_id" := "G2" ]};
           group_labels {[ "team" := "x" ]} "G2" ]
         ["Group members count in group G2: 2" +:+ nl]
         [CallListGroupMembers "G2" member_options
            (ApiOk [mkGroupMember 5] (mkResponse 2))]))
      by (vm_compute; reflexivity).
    exact (proj2 (proj2 (proj2 (proj2
             (gauge_value_is_count_up_to_rounding ∅ "G1" 0))))
             Scenario.totals_client
             (mkConfig (Some 0%nat) [Scenario.members_only "G2"])
             _ _ _ Scenario.team_store _ Hvalid Hrun).
Defined.
